(** * Reflector hook (handler.js): shallow embedding and verified properties

    The hook reads a session log, strips noise, asks a model for a summary and
    a slug, and saves the summary under a collision-free file name.

    JavaScript strings are sequences of UTF-16 code units; they are modelled
    as [list N].  [length] and [slice] therefore count code units, exactly as
    [String.prototype.length] and [String.prototype.slice] do. *)

From Stdlib Require Import ZArith NArith List Bool Lia Ascii String.
From stdpp Require Import base tactics option list gmap pretty.

Abbreviation jsstring := (list N) (only parsing).

(** ** ECMAScript string primitives used by handler.js *)

Module Js.

(** Code units of an ASCII literal. *)
Definition lit (s : string) : jsstring :=
  map N_of_ascii (list_ascii_of_string s).

Definition LF : N := 10%N.
Definition HYPHEN : N := 45%N.

(** WhiteSpace and LineTerminator code points, the set [trim] strips. *)
Definition isWhiteSpace (c : N) : bool :=
  ((9 <=? c) && (c <=? 13) || (c =? 32) || (c =? 0xA0) || (c =? 0x1680)
   || (0x2000 <=? c) && (c <=? 0x200A) || (c =? 0x2028) || (c =? 0x2029)
   || (c =? 0x202F) || (c =? 0x205F) || (c =? 0x3000) || (c =? 0xFEFF))%N.

(** LineTerminator: what [.] in a regular expression does not match. *)
Definition isLineTerminator (c : N) : bool :=
  ((c =? 10) || (c =? 13) || (c =? 0x2028) || (c =? 0x2029))%N.

Fixpoint dropWhile (p : N -> bool) (s : jsstring) : jsstring :=
  match s with
  | [] => []
  | c :: r => if p c then dropWhile p r else s
  end.

Definition trimStart (s : jsstring) : jsstring := dropWhile isWhiteSpace s.
Definition trimEnd (s : jsstring) : jsstring :=
  rev (dropWhile isWhiteSpace (rev s)).
Definition trim (s : jsstring) : jsstring := trimEnd (trimStart s).

Fixpoint startsWith (s p : jsstring) : bool :=
  match p, s with
  | [], _ => true
  | _ :: _, [] => false
  | a :: p', c :: s' => (c =? a)%N && startsWith s' p'
  end.

Definition eqb (a b : jsstring) : bool := bool_decide (a = b).

(** [s.split(sep)] for a one-character separator (the only kind the hook
    uses): never returns the empty array. *)
Fixpoint split (sep : N) (s : jsstring) : list jsstring :=
  match s with
  | [] => [[]]
  | c :: r =>
      if (c =? sep)%N then [] :: split sep r
      else match split sep r with
           | [] => [[c]]
           | w :: ws => (c :: w) :: ws
           end
  end.

Fixpoint join (sep : jsstring) (parts : list jsstring) : jsstring :=
  match parts with
  | [] => []
  | [p] => p
  | p :: rest => p ++ sep ++ join sep rest
  end.

(** [s.slice(start, end)]: negative indices count from the end, both ends
    are clamped to the string. *)
Definition slice (s : jsstring) (start end_ : Z) : jsstring :=
  let len := Z.of_nat (length s) in
  let from := if (start <? 0)%Z then Z.max (len + start) 0 else Z.min start len in
  let to := if (end_ <? 0)%Z then Z.max (len + end_) 0 else Z.min end_ len in
  take (Z.to_nat (to - from)) (drop (Z.to_nat from) s).

(** [s.slice(start)]. *)
Definition sliceFrom (s : jsstring) (start : Z) : jsstring :=
  slice s start (Z.of_nat (length s)).

(** [s.indexOf(c)] for a one-character needle; -1 when absent. *)
Fixpoint indexOf (c : N) (s : jsstring) : Z :=
  match s with
  | [] => (-1)%Z
  | x :: r => if (x =? c)%N then 0%Z
              else let i := indexOf c r in
                   if (i <? 0)%Z then (-1)%Z else (i + 1)%Z
  end.

(** Truthiness of a string value: only the empty string is falsy. *)
Definition truthy (s : jsstring) : bool :=
  match s with [] => false | _ => true end.

(** Unicode case mapping outside ASCII is the host's table and is not
    reproduced: a [CaseTables] instance supplies it.  ASCII letters and the
    (caseless) white space characters are mapped here. *)
Class CaseTables := {
  lowerUnit : N -> jsstring;
  upperUnit : N -> jsstring;
}.

Definition isAsciiUpper (c : N) : bool := ((65 <=? c) && (c <=? 90))%N.
Definition isAsciiLower (c : N) : bool := ((97 <=? c) && (c <=? 122))%N.
Definition isCaseless (c : N) : bool := ((c <? 128)%N || isWhiteSpace c).

Definition toLowerCase `{CaseTables} (s : jsstring) : jsstring :=
  flat_map (fun c => if isAsciiUpper c then [(c + 32)%N]
                     else if isCaseless c then [c] else lowerUnit c) s.

Definition toUpperCase `{CaseTables} (s : jsstring) : jsstring :=
  flat_map (fun c => if isAsciiLower c then [(c - 32)%N]
                     else if isCaseless c then [c] else upperUnit c) s.

(** A JavaScript number as the hook meets it: an integer or NaN. *)
Inductive number := Int (z : Z) | NaN.

(** [n || d] on numbers: 0 and NaN are falsy. *)
Definition orElse (n : number) (d : Z) : Z :=
  match n with
  | Int z => if (z =? 0)%Z then d else z
  | NaN => d
  end.

(** [len > n] with a number on the right: false against NaN. *)
Definition gtNumber (len : Z) (n : number) : bool :=
  match n with
  | Int z => (z <? len)%Z
  | NaN => false
  end.

End Js.

Export Js.

(** ** Errors and results *)

Inductive exn :=
| TypeError
| HostError (message : jsstring).

Inductive outcome (A : Type) :=
| Returns (a : A)
| Throws (e : exn).
Arguments Returns {A} a.
Arguments Throws {A} e.

(** ** Transcript extraction and noise filtering (handler.js 66-167) *)

Module Transcript.

(** The regular expressions of NOISE_PATTERNS, each as the test it performs
    on the trimmed text. *)

(** [/^System: \[.*\] Exec <what>/] after the literal prefix: [.*] crosses
    any run of characters other than line terminators. *)
Fixpoint afterDotStar (tail s : jsstring) : bool :=
  startsWith s tail ||
  match s with
  | [] => false
  | c :: r => if isLineTerminator c then false else afterDotStar tail r
  end.

Definition matchSystemExec (what : string) (s : jsstring) : bool :=
  startsWith s (lit "System: [") &&
  afterDotStar (lit "] Exec " ++ lit what) (drop 9 s).

Definition NOISE_PATTERNS : list (jsstring -> bool) :=
  [ (fun s => eqb s (lit "HEARTBEAT_OK"));
    (fun s => eqb s (lit "NO_REPLY"));
    (fun s => startsWith s (lit "Read HEARTBEAT.md"));
    matchSystemExec "finished";
    matchSystemExec "started";
    (fun s => startsWith s (lit "An async command you ran earlier"));
    (fun s => startsWith s (lit "Approval required (id")) ].

Definition isNoise (text : jsstring) : bool :=
  let trimmed := trim text in
  if negb (truthy trimmed) then true
  else if startsWith trimmed (lit "/") then true
  else existsb (fun pat => pat trimmed) NOISE_PATTERNS.

(** One element of an array-valued [content]. *)
Inductive block :=
| BlockNullish
| Block (type : option jsstring) (text : option jsstring).

Inductive content :=
| ContentString (s : jsstring)
| ContentBlocks (blocks : list block)
| ContentOther.

Definition isTextBlock (c : block) : bool :=
  match c with
  | Block (Some ty) (Some tx) => eqb ty (lit "text") && truthy tx
  | _ => false
  end.

Definition blockText (c : block) : jsstring :=
  match c with
  | Block _ (Some tx) => tx
  | _ => []
  end.

Definition extractText (c : content) : jsstring :=
  match c with
  | ContentString s => s
  | ContentBlocks blocks => join [LF] (map blockText (List.filter isTextBlock blocks))
  | ContentOther => []
  end.

(** [entry.message]: [role] is [None] when it is not a string. *)
Record message := {
  role : option jsstring;
  content_ : content;
  tool_calls : bool;
}.

(** One non-empty line of the session file, after [JSON.parse]. *)
Inductive rawLine :=
| Malformed
| JsonNull
| Entry (type : option jsstring) (msg : option message).

(** U+1F6E0 U+FE0F, the tool marker, in UTF-16. *)
Definition TOOL_MARK : jsstring := [0xD83D; 0xDEE0; 0xFE0F]%N.

Definition keepLine (l : jsstring) : bool :=
  let t := trim l in
  if startsWith t (TOOL_MARK ++ lit " Exec:") then false
  else if startsWith t (TOOL_MARK ++ lit " Read:") then false
  else if startsWith t (lit "System: [") then false
  else true.

Definition cleanText (text : jsstring) : jsstring :=
  trim (join [LF] (List.filter keepLine (split LF text))).

Definition roleIs (r : option jsstring) (name : string) : bool :=
  match r with
  | Some s => eqb s (lit name)
  | None => false
  end.

Definition labelOf `{CaseTables} (r : option jsstring) : outcome jsstring :=
  if roleIs r "user" then Returns (lit "USER")
  else if roleIs r "assistant" then Returns (lit "ASSISTANT")
  else match r with
       | Some s => Returns (toUpperCase s)
       | None => Throws TypeError
       end.

(** The body of the [for] loop: [Returns None] is [continue], [Returns
    (Some l)] pushes [l]. *)
Definition processLine `{CaseTables} (line : rawLine)
  : outcome (option jsstring) :=
  match line with
  | Malformed => Returns None
  | JsonNull => Throws TypeError
  | Entry ty None => Returns None
  | Entry ty (Some msg) =>
      if negb (roleIs ty "message") then Returns None
      else if roleIs (role msg) "tool" then Returns None
      else if roleIs (role msg) "system" then Returns None
      else
        let text := extractText (content_ msg) in
        if negb (truthy text) then Returns None
        else if roleIs (role msg) "assistant" && tool_calls msg
                && negb (truthy (trim text)) then Returns None
        else if isNoise text then Returns None
        else
          let cleanedText := cleanText text in
          if negb (truthy cleanedText) then Returns None
          else match labelOf (role msg) with
               | Returns label =>
                   Returns (Some (label ++ lit ": " ++ cleanedText))
               | Throws e => Throws e
               end
  end.

Fixpoint collect `{CaseTables} (lines : list rawLine)
    (transcript : list jsstring) : outcome (list jsstring) :=
  match lines with
  | [] => Returns transcript
  | line :: rest =>
      match processLine line with
      | Throws e => Throws e
      | Returns None => collect rest transcript
      | Returns (Some l) => collect rest (transcript ++ [l])
      end
  end.

Definition TRUNCATION_MARKER : jsstring :=
  lit "...(earlier conversation truncated)..." ++ [LF; LF].

(** Lines 162-166: a negative [maxChars] is negated by the unary minus, and
    [-0] is 0. *)
Definition truncate (joined : jsstring) (maxChars : number) : jsstring :=
  if gtNumber (Z.of_nat (length joined)) maxChars then
    match maxChars with
    | Int m => TRUNCATION_MARKER ++ sliceFrom joined (- m)
    | NaN => joined
    end
  else joined.

Definition buildCleanTranscript `{CaseTables} (lines : list rawLine)
    (maxChars : number) : outcome jsstring :=
  match collect lines [] with
  | Throws e => Throws e
  | Returns transcript => Returns (truncate (join [LF; LF] transcript) maxChars)
  end.

End Transcript.

Export Transcript.

(** ** One-shot model calls with fallback (handler.js 173-229) *)

Module Llm.

Definition splitProviderModel (modelStr : jsstring)
  : option jsstring * jsstring :=
  let idx := indexOf 47%N modelStr in
  if (idx <? 0)%Z then (None, modelStr)
  else (Some (slice modelStr 0 idx), sliceFrom modelStr (idx + 1)).

(** The argument object of [llmCall] ([cfg] is opaque to the hook). *)
Record callArgs := {
  prompt : jsstring;
  modelStr : jsstring;
  fallbackModels : list jsstring;
  label : jsstring;
  timeoutMs : number;
}.

(** What reaches [runEmbeddedPiAgent]. *)
Record request := {
  reqSession : nat;
  reqPrompt : jsstring;
  reqProvider : option jsstring;
  reqModel : jsstring;
  reqDisableTools : bool;
  reqTimeoutMs : Z;
}.

(** The value the agent resolves to, as far as line 214 reads it:
    [result.payloads?.[0]?.text], or a nullish [result]. *)
Inductive agentResult :=
| ResultNullish
| ResultText (text : option jsstring).

(** How the host behaves during one pass through the loop body. *)
Record attempt := {
  resolveDirs : option exn;
  mkdtemp : option exn;
  runEmbeddedPiAgent : outcome agentResult;
  rmFails : bool;
}.

Inductive logLine :=
| LogSucceeded (label m : jsstring)
| WarnEmpty (label m : jsstring)
| WarnFailed (label m : jsstring) (e : exn).

Definition isWarning (l : logLine) : bool :=
  match l with
  | LogSucceeded _ _ => false
  | _ => true
  end.

Record world := {
  console : list logLine;
  tempDirs : list nat;
  nextTemp : nat;
  requests : list request;
  attempts : nat;
}.

(** State and exceptions. *)
Definition M (A : Type) : Type := world -> outcome A * world.

Definition ret {A} (a : A) : M A := fun w => (Returns a, w).
Definition throw {A} (e : exn) : M A := fun w => (Throws e, w).
Definition bind {A B} (m : M A) (k : A -> M B) : M B :=
  fun w => match m w with
           | (Returns a, w') => k a w'
           | (Throws e, w') => (Throws e, w')
           end.
Definition tryCatch {A} (body : M A) (handler : exn -> M A) : M A :=
  fun w => match body w with
           | (Returns a, w') => (Returns a, w')
           | (Throws e, w') => handler e w'
           end.

Notation "'let*' x ':=' m 'in' k" := (bind m (fun x => k))
  (at level 10, x name, m at level 100, k at level 200).

Definition raiseIf (e : option exn) : M unit :=
  match e with
  | Some x => throw x
  | None => ret tt
  end.

Definition nextAttempt : M nat :=
  fun w => (Returns (attempts w),
            {| console := console w; tempDirs := tempDirs w;
               nextTemp := nextTemp w; requests := requests w;
               attempts := S (attempts w) |}).

Definition log (l : logLine) : M unit :=
  fun w => (Returns tt,
            {| console := console w ++ [l]; tempDirs := tempDirs w;
               nextTemp := nextTemp w; requests := requests w;
               attempts := attempts w |}).

(** [fs.mkdtemp]: a fresh scratch directory, or an error. *)
Definition makeTemp (h : attempt) : M nat :=
  let* _ := raiseIf (mkdtemp h) in
  fun w => (Returns (nextTemp w),
            {| console := console w; tempDirs := tempDirs w ++ [nextTemp w];
               nextTemp := S (nextTemp w); requests := requests w;
               attempts := attempts w |}).

Definition callAgent (h : attempt) (r : request) : M agentResult :=
  fun w => (runEmbeddedPiAgent h,
            {| console := console w; tempDirs := tempDirs w;
               nextTemp := nextTemp w; requests := requests w ++ [r];
               attempts := attempts w |}).

(** [fs.rm(tempDir, ...).catch(() => {})]: failures are swallowed. *)
Definition removeTemp (h : attempt) (d : nat) : M unit :=
  fun w => (Returns tt,
            {| console := console w;
               tempDirs := if rmFails h then tempDirs w
                           else List.filter (fun x => negb (x =? d)) (tempDirs w);
               nextTemp := nextTemp w; requests := requests w;
               attempts := attempts w |}).

(** Line 214. *)
Definition payloadText (r : agentResult) : M (option jsstring) :=
  match r with
  | ResultNullish => throw TypeError
  | ResultText t => ret (option_map trim t)
  end.

(** The [try] block for candidate [m]: [Some text] is the early [return]. *)
Definition tryBlock (h : attempt) (a : callArgs) (m : jsstring)
  : M (option jsstring) :=
  let '(provider, model) := splitProviderModel m in
  let* _ := raiseIf (resolveDirs h) in
  let* tempDir := makeTemp h in
  let* result :=
    callAgent h {| reqSession := tempDir; reqPrompt := prompt a;
                   reqProvider := provider; reqModel := model;
                   reqDisableTools := true;
                   reqTimeoutMs := orElse (timeoutMs a) 60000 |} in
  let* _ := removeTemp h tempDir in
  let* text := payloadText result in
  match text with
  | Some t =>
      if truthy t then let* _ := log (LogSucceeded (label a) m) in ret (Some t)
      else let* _ := log (WarnEmpty (label a) m) in ret None
  | None => let* _ := log (WarnEmpty (label a) m) in ret None
  end.

Definition catchBlock (a : callArgs) (m : jsstring) (err : exn)
  : M (option jsstring) :=
  let* _ := log (WarnFailed (label a) m err) in ret None.

Fixpoint tryModels (host : nat -> attempt) (a : callArgs)
    (models : list jsstring) : M (option jsstring) :=
  match models with
  | [] => ret None
  | m :: rest =>
      let* k := nextAttempt in
      let* r := tryCatch (tryBlock (host k) a m) (catchBlock a m) in
      match r with
      | Some text => ret (Some text)
      | None => tryModels host a rest
      end
  end.

Definition llmCall (host : nat -> attempt) (a : callArgs)
  : M (option jsstring) :=
  tryModels host a (modelStr a :: fallbackModels a).

End Llm.

Export Llm.

(** ** [Date.prototype.toISOString] on a time value (UTC milliseconds) *)

Module Clock.

Local Open Scope Z_scope.

Definition digit (d : Z) : N := (48 + Z.to_N (d mod 10))%N.
Definition pad2 (n : Z) : jsstring := [digit (n / 10); digit n].
Definition pad3 (n : Z) : jsstring := digit (n / 100) :: pad2 n.
Definition pad4 (n : Z) : jsstring := digit (n / 1000) :: pad3 n.
Definition pad6 (n : Z) : jsstring :=
  digit (n / 100000) :: digit (n / 10000) :: pad4 n.

Definition msPerDay : Z := 86400000.

(** Year, month and day of a day number counted from 1970-01-01, in the
    proleptic Gregorian calendar. *)
Definition civilFromDays (day : Z) : Z * Z * Z :=
  let z := day + 719468 in
  let era := z / 146097 in
  let doe := z - era * 146097 in
  let yoe := (doe - doe / 1460 + doe / 36524 - doe / 146096) / 365 in
  let doy := doe - (365 * yoe + yoe / 4 - yoe / 100) in
  let mp := (5 * doy + 2) / 153 in
  let d := doy - (153 * mp + 2) / 5 + 1 in
  let m := if mp <? 10 then mp + 3 else mp - 9 in
  let y := yoe + era * 400 + (if m <=? 2 then 1 else 0) in
  (y, m, d).

(** Years outside 0..9999 use the expanded form with a sign and six digits. *)
Definition yearString (y : Z) : jsstring :=
  if (0 <=? y) && (y <=? 9999) then pad4 y
  else (if y <? 0 then 45%N else 43%N) :: pad6 (Z.abs y).

Definition toISOString (t : Z) : jsstring :=
  let '(y, m, d) := civilFromDays (t / msPerDay) in
  let ms := t mod msPerDay in
  yearString y ++ [45%N] ++ pad2 m ++ [45%N] ++ pad2 d ++ [84%N]
  ++ pad2 (ms / 3600000) ++ [58%N] ++ pad2 (ms / 60000 mod 60) ++ [58%N]
  ++ pad2 (ms / 1000 mod 60) ++ [46%N] ++ pad3 (ms mod 1000) ++ [90%N].

End Clock.

Export Clock.

(** ** Slug generation and clean-up (handler.js 331-363) *)

Module Slug.

(** [a[i]] followed by a method call: reading past the end gives
    [undefined], and the call on it raises. *)
Definition at_ (parts : list jsstring) (i : nat) : outcome jsstring :=
  match parts !! i with
  | Some p => Returns p
  | None => Throws TypeError
  end.

(** [.replace(/```/g, "")] *)
Fixpoint stripFences (s : jsstring) : jsstring :=
  match s with
  | 96%N :: 96%N :: 96%N :: r => stripFences r
  | c :: r => c :: stripFences r
  | [] => []
  end.

Definition isDigit (c : N) : bool := ((48 <=? c) && (c <=? 57))%N.
Definition isSlugChar (c : N) : bool :=
  isAsciiLower c || isDigit c || (c =? HYPHEN)%N.

(** [.replace(/[^a-z0-9-]/g, "-")] *)
Definition hyphenate (s : jsstring) : jsstring :=
  map (fun c => if isSlugChar c then c else HYPHEN) s.

(** [.replace(/-+/g, "-")] *)
Fixpoint collapseHyphens (s : jsstring) : jsstring :=
  match s with
  | [] => []
  | c :: r =>
      if (c =? HYPHEN)%N && startsWith r [HYPHEN] then collapseHyphens r
      else c :: collapseHyphens r
  end.

(** [.replace(/^-|-$/g, "")]: without the [m] flag [^] and [$] match at the
    two ends of the string only, so at most one hyphen goes at each end. *)
Definition dropLeadingHyphen (s : jsstring) : jsstring :=
  match s with
  | c :: r => if (c =? HYPHEN)%N then r else s
  | [] => []
  end.
Definition dropTrailingHyphen (s : jsstring) : jsstring :=
  rev (dropLeadingHyphen (rev s)).
Definition trimHyphenEnds (s : jsstring) : jsstring :=
  dropTrailingHyphen (dropLeadingHyphen s).

(** Lines 350-357. *)
Definition cleanSlug `{CaseTables} (slug : jsstring) : jsstring :=
  slice
    (trimHyphenEnds
       (collapseHyphens (hyphenate (toLowerCase (trim (stripFences slug))))))
    0 40.

(** Line 362, for the time value [now]. *)
Definition fallbackSlug (now : Z) : outcome jsstring :=
  match at_ (split 84%N (toISOString now)) 1 with
  | Throws e => Throws e
  | Returns time =>
      match at_ (split 46%N time) 0 with
      | Throws e => Throws e
      | Returns hms =>
          Returns (slice (List.filter (fun c => negb (c =? 58)%N) hms) 0 4)
      end
  end.

(** Lines 349-363: [slug] is what [llmCall] gave ([None] for [null]). *)
Definition finalSlug `{CaseTables} (slug : option jsstring) (now : Z)
  : outcome jsstring :=
  let slug :=
    match slug with
    | Some s => if truthy s then Some (cleanSlug s) else Some s
    | None => None
    end in
  match slug with
  | Some s =>
      if negb (truthy s) || (length s <? 3)%nat then fallbackSlug now
      else Returns s
  | None => fallbackSlug now
  end.



End Slug.

Export Slug.

(** ** The two model calls of one run (handler.js 255-259, 317-346) *)

Module Calls.

(** The resolved settings: model names, fallback chain, and the two numbers
    [parseInt] produced. *)
Record settings := {
  summaryModel : jsstring;
  slugModel : jsstring;
  fallbacks : list jsstring;
  maxTranscriptChars : number;
  configuredTimeoutMs : number;
}.

Definition DQUOTE : jsstring := [34%N].

Definition summaryPrompt (transcript : jsstring) : jsstring :=
  join [LF]
    [ lit "Summarize this session for future memory recall. Be concise but complete.";
      lit "Ignore routine heartbeats, empty exchanges, and administrative messages.";
      [];
      lit "**Style Instruction:** Capture the " ++ DQUOTE ++ lit "vibe" ++ DQUOTE
        ++ lit " and personality of the interaction.";
      lit "If the user was excited, frustrated, or joking, reflect that context.";
      lit "Keep the structure, but write the bullet points in a natural, human-readable tone.";
      [];
      lit "Format:";
      lit "## Summary";
      [];
      lit "**Topics**: [Comma separated list]";
      [];
      lit "**Vibe**: [1-2 sentences capturing the mood/personality of the session]";
      [];
      lit "**Decisions**:";
      lit "- [Bulleted list]";
      [];
      lit "**Outcomes**:";
      lit "- [Bulleted list]";
      [];
      lit "**Open Items**:";
      lit "- [Bulleted list, or " ++ DQUOTE ++ lit "None" ++ DQUOTE
        ++ lit " if nothing is pending]";
      [];
      lit "Transcript:";
      transcript ].

Definition slugPrompt (summary : jsstring) : jsstring :=
  join [LF]
    [ lit "Based on this summary, generate a concise, lowercase, kebab-case filename slug (3-5 words max).";
      lit "Examples: " ++ DQUOTE ++ lit "reflector-hook-setup" ++ DQUOTE ++ lit ", "
        ++ DQUOTE ++ lit "dj-library-planning" ++ DQUOTE ++ lit ", "
        ++ DQUOTE ++ lit "discord-bot-debugging" ++ DQUOTE;
      lit "Output ONLY the slug, nothing else.";
      [];
      lit "Summary:";
      summary ].

Definition summaryCall (st : settings) (transcript : jsstring) : callArgs :=
  {| prompt := summaryPrompt transcript;
     modelStr := summaryModel st;
     fallbackModels := fallbacks st;
     label := lit "summary";
     timeoutMs := configuredTimeoutMs st |}.

Definition slugCall (st : settings) (summary : jsstring) : callArgs :=
  {| prompt := slugPrompt summary;
     modelStr := slugModel st;
     fallbackModels := summaryModel st :: fallbacks st;
     label := lit "slug";
     timeoutMs := Int 30000 |}.

(** The models [llmCall] walks through, in order (line 184). *)
Definition candidates (a : callArgs) : list jsstring :=
  modelStr a :: fallbackModels a.

(** The timeout every request of a call carries (line 207). *)
Definition effectiveTimeout (a : callArgs) : Z := orElse (timeoutMs a) 60000.

End Calls.

Export Calls.

(** ** Saving the summary (handler.js 365-404) *)

Module Archive.

(** The memory directory: file name to content. [fs.access] succeeds on the
    names in its domain. *)
Abbreviation directory := (gmap (list N) (list N)) (only parsing).

Definition exists_ (dir : directory) (name : jsstring) : bool :=
  bool_decide (is_Some (dir !! name)).

Definition baseName (date slug : jsstring) : jsstring :=
  date ++ lit "-reflector-" ++ slug ++ lit ".md".

Definition altName (date slug : jsstring) (i : nat) : jsstring :=
  date ++ lit "-reflector-" ++ slug ++ [HYPHEN] ++ lit (pretty i) ++ lit ".md".

(** The [while (true)] loop of lines 381-390; [None] when [fuel] iterations
    were not enough to leave it. *)
Fixpoint probe (fuel : nat) (dir : directory) (date slug : jsstring) (i : nat)
  : option jsstring :=
  match fuel with
  | O => None
  | S fuel' =>
      if exists_ dir (altName date slug i)
      then probe fuel' dir date slug (S i)
      else Some (altName date slug i)
  end.

(** Lines 376-393. *)
Definition finalPath (fuel : nat) (dir : directory) (date slug : jsstring)
  : option jsstring :=
  if exists_ dir (baseName date slug) then probe fuel dir date slug 2
  else Some (baseName date slug).

(** Lines 395-402. *)
Definition document (date session slug summary : jsstring) : jsstring :=
  join [LF]
    [ lit "---";
      lit "date: " ++ date;
      lit "session: " ++ session;
      lit "slug: " ++ slug;
      lit "---";
      [];
      summary;
      [] ].


(** Enough iterations for any directory: one more than it has entries. *)
Definition enough (dir : directory) : nat := S (size dir).

End Archive.

Export Archive.

(** ** Vocabulary of the statements *)

Module Props.

(** The final [n] characters of a string. *)
Definition lastChars (n : nat) (s : jsstring) : jsstring :=
  drop (length s - n) s.

(** A character budget in its intended range: not negative. *)
Definition budget (maxChars : number) : Prop :=
  match maxChars with
  | Int m => (0 <= m)%Z
  | NaN => True
  end.

(** A line that the loop skips without looking at anything but its shape,
    its role and the noise verdict on its text. *)
Definition isSkipped (line : rawLine) : bool :=
  match line with
  | Malformed => true
  | JsonNull => false
  | Entry ty None => true
  | Entry ty (Some msg) =>
      negb (roleIs ty "message")
      || roleIs (role msg) "tool"
      || roleIs (role msg) "system"
      || negb (truthy (extractText (content_ msg)))
      || isNoise (extractText (content_ msg))
  end.

(** What the [try] block of a candidate comes to under host behaviour [h]:
    the trimmed non-empty text it returns, or nothing when a step raises or
    the text is missing or empty. *)
Definition yields (h : attempt) : option jsstring :=
  match resolveDirs h, mkdtemp h, runEmbeddedPiAgent h with
  | None, None, Returns (ResultText (Some t)) =>
      if truthy (trim t) then Some (trim t) else None
  | _, _, _ => None
  end.

(** The model a console line is about. *)
Definition lineModel (l : logLine) : jsstring :=
  match l with
  | LogSucceeded _ m => m
  | WarnEmpty _ m => m
  | WarnFailed _ m _ => m
  end.

(** No two hyphens in a row. *)
Fixpoint noDouble (s : jsstring) : Prop :=
  match s with
  | [] => True
  | c :: r => ~ (c = HYPHEN /\ startsWith r [HYPHEN] = true) /\ noDouble r
  end.

(** UTC hour and minute of a time value. *)
Definition utcHour (now : Z) : Z := (now mod msPerDay / 3600000)%Z.
Definition utcMinute (now : Z) : Z := (now mod msPerDay / 60000 mod 60)%Z.
Definition utcSecond (now : Z) : Z := (now mod msPerDay / 1000 mod 60)%Z.

(** A directory in which the plain name and the suffixes 2 .. [n]+1 of a
    date and slug are all taken. *)
Definition crowded (date slug : jsstring) (n : nat) : directory :=
  list_to_map
    ((baseName date slug, []) ::
     map (fun j => (altName date slug j, [])) (seq 2 n)).

End Props.

Export Props.

(** ** Sample data *)

Module Samples.

(** A host whose case tables leave every other character alone. *)
Definition plainCase : CaseTables :=
  {| lowerUnit := fun c => [c]; upperUnit := fun c => [c] |}.

Definition says (who text : string) : rawLine :=
  Entry (Some (lit "message"))
        (Some {| role := Some (lit who);
                 content_ := ContentString (lit text);
                 tool_calls := false |}).

Definition world0 : world :=
  {| console := []; tempDirs := []; nextTemp := 0; requests := [];
     attempts := 0 |}.

Definition answers (text : string) : attempt :=
  {| resolveDirs := None; mkdtemp := None;
     runEmbeddedPiAgent := Returns (ResultText (Some (lit text)));
     rmFails := false |}.

Definition timesOut : attempt :=
  {| resolveDirs := None; mkdtemp := None;
     runEmbeddedPiAgent := Throws (HostError (lit "timeout"));
     rmFails := false |}.

Definition settings0 (timeout : number) : settings :=
  {| summaryModel := lit "google/gemini-2.5-flash";
     slugModel := lit "google/gemini-2.5-flash-lite";
     fallbacks := [lit "anthropic/claude-sonnet-4"];
     maxTranscriptChars := Int 80000;
     configuredTimeoutMs := timeout |}.

End Samples.

Export Samples.

(** ** Vocabulary of the statements about model calls *)

Module CallProps.

(** The warning a failed candidate leaves on the console. *)
Definition warningFor (a : callArgs) (m : jsstring) (h : attempt) : logLine :=
  match resolveDirs h with
  | Some e => WarnFailed (label a) m e
  | None =>
      match mkdtemp h with
      | Some e => WarnFailed (label a) m e
      | None =>
          match runEmbeddedPiAgent h with
          | Throws e => WarnFailed (label a) m e
          | Returns ResultNullish => WarnFailed (label a) m TypeError
          | Returns (ResultText _) => WarnEmpty (label a) m
          end
      end
  end.

(** The console line of one pass through the loop body. *)
Definition resultLine (a : callArgs) (m : jsstring) (h : attempt) : logLine :=
  match yields h with
  | Some _ => LogSucceeded (label a) m
  | None => warningFor a m h
  end.

(** One pass through the loop body for candidate [m]. *)
Definition iteration (host : nat -> attempt) (a : callArgs) (m : jsstring)
  : M (option jsstring) :=
  let* k := nextAttempt in
  tryCatch (tryBlock (host k) a m) (catchBlock a m).

End CallProps.

Export CallProps.

(** ** Sample calls *)

Module CallSamples.

(** A call over the candidates A, then B and C. *)
Definition callABC : callArgs :=
  {| prompt := lit "p"; modelStr := lit "A";
     fallbackModels := [lit "B"; lit "C"]; label := lit "summary";
     timeoutMs := Int 60000 |}.

(** A times out, B answers with blanks, C (and whoever follows) answers. *)
Definition hostABC (k : nat) : attempt :=
  match k with
  | 0 => timesOut
  | 1 => answers "  "
  | _ => answers " done "
  end.

(** The first attempt times out, later ones answer. *)
Definition hostTimeoutFirst (k : nat) : attempt :=
  match k with
  | 0 => timesOut
  | _ => answers "ok"
  end.

End CallSamples.

Export CallSamples.

(** ** Vocabulary of the statements about slugs *)

Module SlugProps.

(** No two hyphens next to each other. *)
Definition separated (s : jsstring) : Prop :=
  forall a b, s <> a ++ HYPHEN :: HYPHEN :: b.

Definition allWhiteSpace (s : jsstring) : Prop :=
  Forall (fun c => isWhiteSpace c = true) s.

(** Thirty-nine letters, a hyphen, and one more letter. *)
Definition longSlug : jsstring := repeat 97%N 39 ++ lit "-b".

End SlugProps.

Export SlugProps.

(** ** Sample directories *)

Module ArchiveSamples.





End ArchiveSamples.

Export ArchiveSamples.

(** ** Vocabulary of the statements about whole transcripts *)

Module TranscriptProps.


(** The administrative prefixes of NOISE_PATTERNS, and the slash. *)
Definition noisePrefixes : list jsstring :=
  [ lit "/"; lit "Read HEARTBEAT.md"; lit "An async command you ran earlier";
    lit "Approval required (id" ].

End TranscriptProps.

Export TranscriptProps.

(** ** Vocabulary of the further statements *)

Module MoreProps.

(** Scratch directories get fresh names: all that exist are older than the
    next one. *)
Definition freshTemps (w : world) : Prop :=
  Forall (fun d => d < nextTemp w) (tempDirs w).

(** A host on which the generation call always comes back and the
    clean-up always works. *)
Definition gentle (h : attempt) : Prop :=
  (exists r, runEmbeddedPiAgent h = Returns r) /\ rmFails h = false.

(** A slug as the prompt asks for it: letters, digits and single hyphens,
    no hyphen at either end, at most forty characters. *)
Definition tidy (s : jsstring) : Prop :=
  Forall (fun c => isSlugChar c = true) s /\
  separated s /\
  startsWith s [HYPHEN] = false /\
  startsWith (rev s) [HYPHEN] = false /\
  length s <= 40.


End MoreProps.

Export MoreProps.

(** ** The handler and the detached summary run (handler.js 235-411) *)

Module Handler.

(** [env.X || d] on a string setting: absent and empty both give [d]. *)
Definition orString (v : option jsstring) (d : jsstring) : jsstring :=
  match v with
  | Some s => if truthy s then s else d
  | None => d
  end.

(** Line 257: split at commas, trim each piece, drop the empty ones. *)
Definition parseFallbacks (v : option jsstring) : list jsstring :=
  List.filter truthy (map trim (split 44%N (orString v []))).

(** The string settings of the hook entry's [env]. *)
Record hookEnv := {
  REFLECTOR_SUMMARY_MODEL : option jsstring;
  REFLECTOR_SLUG_MODEL : option jsstring;
  REFLECTOR_FALLBACK_MODELS : option jsstring;
}.

(** Lines 255-259; [maxChars] and [timeout] are what the two [parseInt]
    calls returned. *)
Definition settingsOf (env : hookEnv) (maxChars timeout : number) : settings :=
  {| summaryModel :=
       orString (REFLECTOR_SUMMARY_MODEL env) (lit "google/gemini-2.5-flash");
     slugModel :=
       orString (REFLECTOR_SLUG_MODEL env) (lit "google/gemini-2.5-flash-lite");
     fallbacks := parseFallbacks (REFLECTOR_FALLBACK_MODELS env);
     maxTranscriptChars := maxChars;
     configuredTimeoutMs := timeout |}.

(** [path.basename] on a POSIX path: the last segment that is not empty. *)
Definition basename (p : jsstring) : jsstring :=
  List.last (List.filter truthy (split 47%N p)) [].

(** What the host does while the summary is saved, and the two clock
    readings of lines 361 and 371. A failed write may leave something at
    the path. *)
Record saveHost := {
  workspaceDir : option exn;
  mkdir : option exn;
  writeFile : option (exn * option jsstring);
  nowSlug : Z;
  nowDate : Z;
}.

(** The console lines of the handler itself, by the line that writes them. *)
Inductive reportLine :=
| ErrorLoadInternals (e : exn)
| WarnNoConfig
| LogNoSessionFile
| LogProcessing (sessionFile : jsstring)
| ErrorReadSession (e : exn)
| LogTooShort
| LogCleanTranscript (chars : nat)
| ErrorAllModelsFailed
| LogSaved (path : jsstring)
| ErrorDuringSummary (e : exn).

(** The model calls made so far, the memory directory, and the handler's own
    console lines. *)
Record state := {
  llm : world;
  memory : directory;
  report : list reportLine;
}.

Definition say (l : reportLine) (w : world) (s : state) : state :=
  {| llm := w; memory := memory s; report := report s ++ [l] |}.

(** [if (!summary)]: [null] and the empty string both count as no
    summary. *)
Definition usable (answer : option jsstring) : option jsstring :=
  match answer with
  | Some t => if truthy t then Some t else None
  | None => None
  end.

(** Lines 289-410, the detached run; [None] when [fuel] iterations were not
    enough for the suffix loop. *)
Definition summarize `{CaseTables} (host : nat -> attempt) (sh : saveHost)
    (st : settings) (sessionFile transcript : jsstring) (fuel : nat)
    (s : state) : option state :=
  match llmCall host (summaryCall st transcript) (llm s) with
  | (Throws e, w1) => Some (say (ErrorDuringSummary e) w1 s)
  | (Returns answer, w1) =>
  match usable answer with
  | None => Some (say ErrorAllModelsFailed w1 s)
  | Some summary =>
  match llmCall host (slugCall st summary) w1 with
  | (Throws e, w2) => Some (say (ErrorDuringSummary e) w2 s)
  | (Returns answer, w2) =>
  match finalSlug answer (nowSlug sh) with
  | Throws e => Some (say (ErrorDuringSummary e) w2 s)
  | Returns slug =>
  match workspaceDir sh, mkdir sh with
  | Some e, _ => Some (say (ErrorDuringSummary e) w2 s)
  | None, Some e => Some (say (ErrorDuringSummary e) w2 s)
  | None, None =>
  match at_ (split 84%N (toISOString (nowDate sh))) 0 with
  | Throws e => Some (say (ErrorDuringSummary e) w2 s)
  | Returns date =>
  match finalPath fuel (memory s) date slug with
  | None => None
  | Some p =>
  match writeFile sh with
  | Some (e, None) => Some (say (ErrorDuringSummary e) w2 s)
  | Some (e, Some partial) =>
      Some {| llm := w2;
              memory := <[p := partial]> (memory s);
              report := report s ++ [ErrorDuringSummary e] |}
  | None =>
      Some {| llm := w2;
              memory := <[p := document date (basename sessionFile)
                                slug summary]> (memory s);
              report := report s ++ [LogSaved p] |}
  end end end end end end end end.

(** What the handler reads from the event and the host before the detached
    run: [config] is [None] without [context.cfg]; [sessionFile] is the
    path, if any; [sessionLines] is the parsed file or the read error. *)
Record event := {
  evType : jsstring;
  evAction : jsstring;
  loadInternals : option exn;
  config : option hookEnv;
  parsedMaxChars : number;
  parsedTimeoutMs : number;
  sessionFile : option jsstring;
  sessionLines : outcome (list rawLine);
}.

(** Lines 235-411. *)
Definition handler `{CaseTables} (host : nat -> attempt) (sh : saveHost)
    (ev : event) (fuel : nat) (s : state) : option state :=
  if negb (eqb (evType ev) (lit "command"))
     || negb (eqb (evAction ev) (lit "new")) then Some s
  else
    match loadInternals ev with
    | Some e => Some (say (ErrorLoadInternals e) (llm s) s)
    | None =>
        match config ev with
        | None => Some (say WarnNoConfig (llm s) s)
        | Some env =>
            let st := settingsOf env (parsedMaxChars ev) (parsedTimeoutMs ev) in
            match sessionFile ev with
            | None => Some (say LogNoSessionFile (llm s) s)
            | Some file =>
                if negb (truthy file) then Some (say LogNoSessionFile (llm s) s)
                else
                  let s1 := say (LogProcessing file) (llm s) s in
                  let built :=
                    match sessionLines ev with
                    | Throws e => Throws e
                    | Returns lines =>
                        buildCleanTranscript lines (maxTranscriptChars st)
                    end in
                  match built with
                  | Throws e => Some (say (ErrorReadSession e) (llm s1) s1)
                  | Returns transcript =>
                      if negb (truthy transcript)
                         || (length transcript <? 50)%nat
                      then Some (say LogTooShort (llm s1) s1)
                      else
                        summarize host sh st file transcript fuel
                          (say (LogCleanTranscript (length transcript))
                               (llm s1) s1)
                  end
            end
        end
    end.

End Handler.

Export Handler.

(** ** Sample events *)

Module HandlerSamples.

Definition noEnv : hookEnv :=
  {| REFLECTOR_SUMMARY_MODEL := None; REFLECTOR_SLUG_MODEL := None;
     REFLECTOR_FALLBACK_MODELS := None |}.

Definition state0 : state := {| llm := world0; memory := ∅; report := [] |}.

Definition calmHost : saveHost :=
  {| workspaceDir := None; mkdir := None; writeFile := None;
     nowSlug := 45296000; nowDate := 45296000 |}.

(** The summary answers at once; nobody answers the slug call. *)
Definition hostSummaryOnly (k : nat) : attempt :=
  match k with
  | 0 => answers "## Summary"
  | _ => timesOut
  end.

Definition newSession (lines : list rawLine) (maxChars : number) : event :=
  {| evType := lit "command"; evAction := lit "new"; loadInternals := None;
     config := Some noEnv; parsedMaxChars := maxChars;
     parsedTimeoutMs := Int 60000;
     sessionFile := Some (lit "/home/u/sessions/s1.jsonl");
     sessionLines := Returns lines |}.

End HandlerSamples.

Export HandlerSamples.

(** ** The date in the file name *)

Module ClockProps.

(** The calendar date of a time value as [toISOString] prints it. *)
Definition isoDate (t : Z) : jsstring :=
  let '(y, m, d) := civilFromDays (t / msPerDay) in
  yearString y ++ [45%N] ++ pad2 m ++ [45%N] ++ pad2 d.

End ClockProps.

Export ClockProps.

(** ** The markers of the line filter *)

Module LineProps.

(** What a line must begin with, after indentation, to be filtered out. *)
Definition droppedPrefixes : list jsstring :=
  [ TOOL_MARK ++ lit " Exec:"; TOOL_MARK ++ lit " Read:"; lit "System: [" ].

End LineProps.

Export LineProps.

(** * Properties *)

(** ** Strings *)

Section StringFacts.

Lemma slice_prefix (s : jsstring) (n : nat) :
  slice s 0 (Z.of_nat n) = take n s.
Proof.
  unfold slice. cbn [Z.ltb Z.compare].
  destruct (Z.ltb_spec (Z.of_nat n) 0) as [Hneg|_]; [exfalso; lia|].
  rewrite (Z.min_l 0) by lia. rewrite Z2Nat.inj_0, drop_0, Z.sub_0_r.
  destruct (Z.min_spec (Z.of_nat n) (Z.of_nat (length s))) as [[Hlt ->]|[Hge ->]].
  - now rewrite Nat2Z.id.
  - rewrite Nat2Z.id. rewrite !take_ge by lia. reflexivity.
Qed.

Lemma sliceFrom_tail (s : jsstring) (m : Z) :
  (0 < m < Z.of_nat (length s))%Z ->
  sliceFrom s (- m) = lastChars (Z.to_nat m) s.
Proof.
  intros Hm. unfold sliceFrom, slice, lastChars.
  destruct (Z.ltb_spec (- m) 0) as [_|Hge]; [|exfalso; lia].
  destruct (Z.ltb_spec (Z.of_nat (length s)) 0) as [Hneg|_]; [exfalso; lia|].
  rewrite Z.max_l by lia. rewrite Z.min_id.
  replace (Z.to_nat (Z.of_nat (length s) + - m)) with (length s - Z.to_nat m) by lia.
  apply take_ge. rewrite length_drop. lia.
Qed.

Lemma sliceFrom_zero (s : jsstring) : sliceFrom s (- 0) = s.
Proof.
  change (- 0)%Z with 0%Z. unfold sliceFrom.
  rewrite (slice_prefix s (length s)). apply take_ge. lia.
Qed.

Lemma join_nonempty (sep p : jsstring) (rest : list jsstring) :
  p <> [] -> join sep (p :: rest) <> [].
Proof.
  intros Hp. destruct rest as [|q rest]; cbn [join]; [exact Hp|].
  destruct p; [congruence|discriminate].
Qed.

End StringFacts.

(** ** Transcript *)

Section TranscriptFacts.

Context `{CaseTables}.

Lemma truncate_over (joined : jsstring) (m : Z) :
  (0 < m < Z.of_nat (length joined))%Z ->
  truncate joined (Int m) = TRUNCATION_MARKER ++ lastChars (Z.to_nat m) joined.
Proof.
  intros Hm. unfold truncate, gtNumber.
  destruct (Z.ltb_spec m (Z.of_nat (length joined))) as [_|Hge]; [|exfalso; lia].
  now rewrite sliceFrom_tail.
Qed.

Lemma truncate_within (joined : jsstring) (m : Z) :
  (Z.of_nat (length joined) <= m)%Z -> truncate joined (Int m) = joined.
Proof.
  intros Hm. unfold truncate, gtNumber.
  destruct (Z.ltb_spec m (Z.of_nat (length joined))) as [Hlt|_]; [exfalso; lia|reflexivity].
Qed.

Lemma truncate_zero (joined : jsstring) :
  joined <> [] -> truncate joined (Int 0) = TRUNCATION_MARKER ++ joined.
Proof.
  intros Hne. unfold truncate, gtNumber.
  destruct (Z.ltb_spec 0 (Z.of_nat (length joined))) as [_|Hge].
  - now rewrite sliceFrom_zero.
  - destruct joined; [congruence|cbn [length] in Hge; exfalso; lia].
Qed.

Lemma truncate_nonempty (joined : jsstring) (maxChars : number) :
  joined <> [] -> truncate joined maxChars <> [].
Proof.
  intros Hne. unfold truncate.
  destruct (gtNumber _ _); [|exact Hne].
  destruct maxChars; [discriminate|exact Hne].
Qed.

Lemma truncate_empty (maxChars : number) :
  budget maxChars -> truncate [] maxChars = [].
Proof.
  intros Hb. destruct maxChars as [m|]; [|reflexivity].
  unfold truncate, gtNumber, budget in *. change (Z.of_nat (length [])) with 0%Z.
  destruct (Z.ltb_spec m 0) as [Hlt|_]; [exfalso; lia|reflexivity].
Qed.

(** A pushed line is a label, a colon and a space, and the cleaned text. *)
Lemma processLine_pushes (line : rawLine) (l : jsstring) :
  processLine line = Returns (Some l) -> l <> [].
Proof.
  destruct line as [| |ty [msg|]]; cbn [processLine]; try discriminate.
  repeat (match goal with
          | |- context [if ?b then _ else _] => destruct b; try discriminate
          end).
  destruct (labelOf (role msg)) as [lbl|e]; [|discriminate].
  intros [= <-] Hnil. apply app_eq_nil in Hnil as [_ Hnil].
  discriminate Hnil.
Qed.

Lemma processLine_skips (line : rawLine) :
  isSkipped line = true -> processLine line = Returns None.
Proof.
  destruct line as [| |ty [msg|]]; try reflexivity; try discriminate.
  unfold isSkipped, processLine.
  destruct (roleIs ty "message"); [|reflexivity].
  destruct (roleIs (role msg) "tool"); [reflexivity|].
  destruct (roleIs (role msg) "system"); [reflexivity|].
  destruct (truthy (extractText (content_ msg))); [|reflexivity].
  cbn [negb orb]. intros ->.
  destruct (roleIs (role msg) "assistant" && tool_calls msg
            && negb (truthy (trim (extractText (content_ msg))))); reflexivity.
Qed.

Lemma collect_invariant (lines : list rawLine) (acc transcript : list jsstring) :
  collect lines acc = Returns transcript ->
  Forall (fun l => l <> []) acc -> Forall (fun l => l <> []) transcript.
Proof.
  revert acc. induction lines as [|line rest IH]; intros acc Hc Hacc; cbn in Hc.
  - now simplify_eq.
  - destruct (processLine line) as [[l|]|e] eqn:Hp; [| |discriminate].
    + eapply IH; [exact Hc|]. apply Forall_app. split; [exact Hacc|].
      constructor; [|constructor]. eapply processLine_pushes, Hp.
    + eapply IH; eauto.
Qed.

Lemma collect_skipped (lines : list rawLine) (acc : list jsstring) :
  forallb isSkipped lines = true -> collect lines acc = Returns acc.
Proof.
  revert acc. induction lines as [|line rest IH]; intros acc Hs; [reflexivity|].
  cbn in Hs. apply andb_prop in Hs as [Hl Hr].
  cbn. rewrite (processLine_skips _ Hl). now apply IH.
Qed.

Lemma build_returns (lines : list rawLine) (maxChars : number)
    (transcript : list jsstring) :
  collect lines [] = Returns transcript ->
  buildCleanTranscript lines maxChars
  = Returns (truncate (join [LF; LF] transcript) maxChars).
Proof. intros Hc. unfold buildCleanTranscript. now rewrite Hc. Qed.

(** Over a positive budget the marker is followed by the final [maxChars]
    characters; within the budget nothing changes. *)
Lemma build_truncates (lines : list rawLine) (m : Z)
    (transcript : list jsstring) :
  collect lines [] = Returns transcript ->
  let joined := join [LF; LF] transcript in
  ((0 < m < Z.of_nat (length joined))%Z ->
   buildCleanTranscript lines (Int m)
   = Returns (TRUNCATION_MARKER ++ lastChars (Z.to_nat m) joined)) /\
  ((Z.of_nat (length joined) <= m)%Z ->
   buildCleanTranscript lines (Int m) = Returns joined).
Proof.
  intros Hc joined. rewrite (build_returns _ _ _ Hc). fold joined. split; intros Hm.
  - now rewrite truncate_over.
  - now rewrite truncate_within.
Qed.

(** C1. With a budget of 0 characters and a transcript that exceeds it, the
    result is the marker followed by the whole joined text, where the final
    0 characters (nothing) should follow it: [joined.slice(-0)] is
    [joined.slice(0)]. *)
Theorem buildCleanTranscript_budget_zero :
  let lines := [says "user" "hello"] in
  let joined := lit "USER: hello" in
  collect lines [] = Returns [joined] /\
  gtNumber (Z.of_nat (length joined)) (Int 0) = true /\
  buildCleanTranscript lines (Int 0) = Returns (TRUNCATION_MARKER ++ joined) /\
  buildCleanTranscript lines (Int 0)
  <> Returns (TRUNCATION_MARKER ++ lastChars 0 joined).
Proof.
  cbv zeta.
  assert (Hc : collect [says "user" "hello"] [] = Returns [lit "USER: hello"])
    by (vm_compute; reflexivity).
  split; [exact Hc|]. split; [reflexivity|].
  rewrite (build_returns _ _ _ Hc). cbn [join].
  rewrite truncate_zero by discriminate.
  split; [reflexivity|]. intros Heq. vm_compute in Heq. discriminate Heq.
Qed.

(** C9, amended. For a budget that is not negative: the transcript is empty
    exactly when no line survived, every surviving line is non-empty, and
    input made of noise and skipped records only gives the empty transcript.
    Heartbeats, slash commands and blank texts are noise. *)
Theorem transcript_empty_iff_no_survivor (lines : list rawLine)
    (maxChars : number) :
  budget maxChars ->
  (forall transcript, collect lines [] = Returns transcript ->
     Forall (fun l => l <> []) transcript /\
     (buildCleanTranscript lines maxChars = Returns [] <-> transcript = [])) /\
  (forallb isSkipped lines = true ->
     collect lines [] = Returns [] /\
     buildCleanTranscript lines maxChars = Returns []) /\
  isNoise (lit "HEARTBEAT_OK") = true /\ isNoise (lit "NO_REPLY") = true /\
  isNoise (lit "/new") = true /\ isNoise [] = true /\ isNoise (lit "   ") = true.
Proof.
  intros Hb. split; [|split].
  - intros transcript Hc.
    assert (Hne : Forall (fun l => l <> []) transcript)
      by (eapply collect_invariant; [exact Hc|constructor]).
    split; [exact Hne|]. rewrite (build_returns _ _ _ Hc). split.
    + intros Hr. destruct transcript as [|l rest]; [reflexivity|].
      exfalso. inversion Hne as [|? ? Hl _]; subst.
      apply (truncate_nonempty (join [LF; LF] (l :: rest)) maxChars
               (join_nonempty _ _ _ Hl)).
      congruence.
    + intros ->. cbn [join]. now rewrite truncate_empty.
  - intros Hs. pose proof (collect_skipped lines [] Hs) as Hc.
    split; [exact Hc|]. rewrite (build_returns _ _ _ Hc). cbn [join].
    now rewrite truncate_empty.
  - repeat split; vm_compute; reflexivity.
Qed.

End TranscriptFacts.

(** With a negative budget even the empty join counts as over budget. *)
Lemma negative_budget_marks_empty_input :
  @collect plainCase [] [] = Returns [] /\
  @buildCleanTranscript plainCase [] (Int (-1)) = Returns TRUNCATION_MARKER /\
  TRUNCATION_MARKER <> [].
Proof. repeat split; vm_compute; congruence. Qed.

Lemma transcript_empty_iff_no_survivor_witness :
  budget (Int 80000) /\
  @buildCleanTranscript plainCase
    [says "user" "HEARTBEAT_OK"; says "user" "/new"; says "assistant" "  "]
    (Int 80000) = Returns [].
Proof.
  split; [cbn; lia|].
  apply (@transcript_empty_iff_no_survivor plainCase
           [says "user" "HEARTBEAT_OK"; says "user" "/new"; says "assistant" "  "]
           (Int 80000)); [cbn; lia|vm_compute; reflexivity].
Defined.

(** ** Model calls *)

Section CallFacts.

Variable host : nat -> attempt.
Variable a : callArgs.

Lemma tryBlock_caught (h : attempt) (m : jsstring) (w : world) :
  exists w',
    tryCatch (tryBlock h a m) (catchBlock a m) w = (Returns (yields h), w') /\
    attempts w' = attempts w /\
    console w' = console w ++ [resultLine a m h].
Proof.
  unfold tryCatch, tryBlock, catchBlock, resultLine, warningFor, yields.
  destruct (splitProviderModel m) as [provider model].
  destruct h as [[e1|] [e2|] [[|[t|]]|e3] rm]; cbn;
    try (eexists; split; [reflexivity|split; reflexivity]).
  destruct (truthy (trim t)); cbn;
    eexists; (split; [reflexivity|split; reflexivity]).
Qed.

Lemma iteration_result (m : jsstring) (w : world) :
  exists w',
    iteration host a m w = (Returns (yields (host (attempts w))), w') /\
    attempts w' = S (attempts w) /\
    console w' = console w ++ [resultLine a m (host (attempts w))].
Proof.
  unfold iteration, bind, nextAttempt.
  destruct (tryBlock_caught (host (attempts w)) m
              {| console := console w; tempDirs := tempDirs w;
                 nextTemp := nextTemp w; requests := requests w;
                 attempts := S (attempts w) |}) as (w' & Hrun & Hatt & Hcon).
  exists w'. now rewrite Hrun.
Qed.

Lemma tryModels_step (m : jsstring) (rest : list jsstring) (w : world) :
  tryModels host a (m :: rest) w
  = match iteration host a m w with
    | (Returns (Some text), w') => (Returns (Some text), w')
    | (Returns None, w') => tryModels host a rest w'
    | (Throws e, w') => (Throws e, w')
    end.
Proof.
  cbn [tryModels]. unfold iteration, bind. cbn.
  destruct (tryCatch _ _ _) as [[[text|]|e] w']; reflexivity.
Qed.

Lemma resultLine_failed (m : jsstring) (h : attempt) :
  yields h = None ->
  isWarning (resultLine a m h) = true /\ lineModel (resultLine a m h) = m.
Proof.
  intros Hy. unfold resultLine. rewrite Hy. unfold warningFor.
  repeat case_match; split; reflexivity.
Qed.

(** Every earlier candidate failed, this one answers. *)
Lemma tryModels_first_success (pre : list jsstring) (m : jsstring)
    (post : list jsstring) (t : jsstring) (w : world) :
  (forall i, i < length pre -> yields (host (attempts w + i)) = None) ->
  yields (host (attempts w + length pre)) = Some t ->
  exists w' warnings,
    tryModels host a (pre ++ m :: post) w = (Returns (Some t), w') /\
    console w' = console w ++ warnings ++ [LogSucceeded (label a) m] /\
    Forall (fun l => isWarning l = true) warnings /\
    map lineModel warnings = pre.
Proof.
  revert w. induction pre as [|p pre IH]; intros w Hfail Hok.
  - cbn [app length] in *. rewrite Nat.add_0_r in Hok.
    rewrite tryModels_step.
    destruct (iteration_result m w) as (w' & -> & _ & Hcon).
    rewrite Hok. exists w', []. repeat split; [|constructor].
    rewrite Hcon. unfold resultLine. now rewrite Hok.
  - cbn [app]. rewrite tryModels_step.
    destruct (iteration_result p w) as (w1 & -> & Hatt & Hcon).
    assert (Hp : yields (host (attempts w)) = None).
    { specialize (Hfail 0). rewrite Nat.add_0_r in Hfail. apply Hfail. cbn. lia. }
    rewrite Hp.
    destruct (IH w1) as (w' & warnings & Hrun & Hcon' & Hwarn & Hmodels).
    + intros i Hi. rewrite Hatt.
      replace (S (attempts w) + i) with (attempts w + S i) by lia.
      apply Hfail. cbn. lia.
    + rewrite Hatt.
      replace (S (attempts w) + length pre) with (attempts w + length (p :: pre))
        by (cbn; lia).
      exact Hok.
    + destruct (resultLine_failed p _ Hp) as [Hw Hm].
      exists w', (resultLine a p (host (attempts w)) :: warnings).
      split; [exact Hrun|]. split; [|split].
      * rewrite Hcon', Hcon. now rewrite <- app_assoc.
      * now constructor.
      * cbn. now rewrite Hm, Hmodels.
Qed.

(** Every candidate failed. *)
Lemma tryModels_all_fail (ms : list jsstring) (w : world) :
  (forall i, i < length ms -> yields (host (attempts w + i)) = None) ->
  exists w' warnings,
    tryModels host a ms w = (Returns None, w') /\
    console w' = console w ++ warnings /\
    Forall (fun l => isWarning l = true) warnings /\
    map lineModel warnings = ms.
Proof.
  revert w. induction ms as [|p ms IH]; intros w Hfail.
  - exists w, []. cbn. rewrite app_nil_r. repeat split. constructor.
  - rewrite tryModels_step.
    destruct (iteration_result p w) as (w1 & -> & Hatt & Hcon).
    assert (Hp : yields (host (attempts w)) = None).
    { specialize (Hfail 0). rewrite Nat.add_0_r in Hfail. apply Hfail. cbn. lia. }
    rewrite Hp.
    destruct (IH w1) as (w' & warnings & Hrun & Hcon' & Hwarn & Hmodels).
    { intros i Hi. rewrite Hatt.
      replace (S (attempts w) + i) with (attempts w + S i) by lia.
      apply Hfail. cbn. lia. }
    destruct (resultLine_failed p _ Hp) as [Hw Hm].
    exists w', (resultLine a p (host (attempts w)) :: warnings).
    split; [exact Hrun|]. split; [|split].
    + rewrite Hcon', Hcon. now rewrite <- app_assoc.
    + now constructor.
    + cbn. now rewrite Hm, Hmodels.
Qed.

Lemma tryModels_returns (ms : list jsstring) (w : world) :
  exists r w', tryModels host a ms w = (Returns r, w').
Proof.
  revert w. induction ms as [|p ms IH]; intros w.
  - now exists None, w.
  - rewrite tryModels_step.
    destruct (iteration_result p w) as (w1 & -> & _ & _).
    destruct (yields _) as [t|]; [now exists (Some t), w1|apply IH].
Qed.

(** Every request of a call carries the call's timeout and has tools
    disabled. *)
Lemma tryModels_requests (ms : list jsstring) (w : world) :
  exists new,
    requests (snd (tryModels host a ms w)) = requests w ++ new /\
    Forall (fun r => reqTimeoutMs r = effectiveTimeout a /\
                     reqDisableTools r = true /\ reqPrompt r = prompt a) new.
Proof.
  revert w. induction ms as [|p ms IH]; intros w.
  - exists []. cbn. rewrite app_nil_r. split; [reflexivity|constructor].
  - assert (Hit : exists new1 r w1,
               iteration host a p w = (Returns r, w1) /\
               requests w1 = requests w ++ new1 /\
               Forall (fun r => reqTimeoutMs r = effectiveTimeout a /\
                                reqDisableTools r = true /\
                                reqPrompt r = prompt a) new1).
    { unfold iteration, bind, nextAttempt, tryCatch, tryBlock, catchBlock.
      destruct (splitProviderModel p) as [provider model].
      destruct (host (attempts w)) as [[e1|] [e2|] [[|[t|]]|e3] rm]; cbn;
        try (exists []; do 2 eexists; split; [reflexivity|];
             cbn; rewrite app_nil_r; split; [reflexivity|constructor]);
        try (eexists [_]; do 2 eexists; split; [reflexivity|];
             cbn; split; [reflexivity|repeat constructor]).
      destruct (truthy (trim t)); cbn;
        (eexists [_]; do 2 eexists; split; [reflexivity|];
         cbn; split; [reflexivity|repeat constructor]). }
    destruct Hit as (new1 & r & w1 & Hrun & Hreq & Hall).
    rewrite tryModels_step, Hrun. destruct r as [text|].
    + exists new1. now split.
    + destruct (IH w1) as (new2 & Hreq2 & Hall2).
      exists (new1 ++ new2). split.
      * now rewrite Hreq2, Hreq, <- app_assoc.
      * now apply Forall_app.
Qed.

End CallFacts.

(** C2. [llmCall] returns the trimmed text of the first candidate that
    answers with non-empty text, after one warning for each earlier
    candidate; when no candidate does it returns [null] after one warning per
    candidate; and it never raises. *)
Theorem llmCall_fallback (host : nat -> attempt) (a : callArgs) (w : world) :
  (forall pre m post t,
     candidates a = pre ++ m :: post ->
     (forall i, i < length pre -> yields (host (attempts w + i)) = None) ->
     yields (host (attempts w + length pre)) = Some t ->
     exists w' warnings,
       llmCall host a w = (Returns (Some t), w') /\
       console w' = console w ++ warnings ++ [LogSucceeded (label a) m] /\
       Forall (fun l => isWarning l = true) warnings /\
       map lineModel warnings = pre) /\
  ((forall i, i < length (candidates a) ->
      yields (host (attempts w + i)) = None) ->
   exists w' warnings,
     llmCall host a w = (Returns None, w') /\
     console w' = console w ++ warnings /\
     Forall (fun l => isWarning l = true) warnings /\
     map lineModel warnings = candidates a) /\
  (exists r w', llmCall host a w = (Returns r, w')).
Proof.
  unfold llmCall. fold (candidates a). split; [|split].
  - intros pre m post t -> Hfail Hok. now apply tryModels_first_success.
  - intros Hfail. now apply tryModels_all_fail.
  - apply tryModels_returns.
Qed.

(** Candidates A and B fail, C answers: the result is C's text and the
    console holds one warning for A and one for B. *)
Lemma llmCall_fallback_witness :
  exists w' warnings,
    llmCall hostABC callABC world0 = (Returns (Some (lit "done")), w') /\
    console w' = console world0 ++ warnings
                 ++ [LogSucceeded (label callABC) (lit "C")] /\
    Forall (fun l => isWarning l = true) warnings /\
    map lineModel warnings = [lit "A"; lit "B"].
Proof.
  apply (proj1 (llmCall_fallback hostABC callABC world0)
           [lit "A"; lit "B"] (lit "C") [] (lit "done")).
  - reflexivity.
  - intros [|[|i]] Hi; [reflexivity|reflexivity|cbn in Hi; lia].
  - reflexivity.
Defined.

(** C5. When the agent call raises (here: a timeout), control jumps to the
    [catch] block past the clean-up of line 212: the scratch directory of
    that attempt is still there when the next candidate runs and when
    [llmCall] returns, whereas an attempt that returns is cleaned up. *)
Theorem scratch_dir_survives_agent_error :
  tempDirs (snd (iteration hostTimeoutFirst callABC (lit "A") world0)) = [0] /\
  fst (llmCall hostTimeoutFirst callABC world0) = Returns (Some (lit "ok")) /\
  map reqSession (requests (snd (llmCall hostTimeoutFirst callABC world0)))
  = [0; 1] /\
  tempDirs (snd (llmCall hostTimeoutFirst callABC world0)) = [0] /\
  tempDirs (snd (iteration (fun _ => answers "ok") callABC (lit "A") world0))
  = [] /\
  tempDirs (snd (iteration (fun _ => answers "") callABC (lit "A") world0))
  = [].
Proof. repeat split; vm_compute; reflexivity. Qed.

(** The general shape of the leak: an attempt whose agent call raises leaves
    its scratch directory behind. *)
Lemma agent_error_leaves_scratch_dir (h : attempt) (a : callArgs)
    (m : jsstring) (e : exn) (w : world) :
  resolveDirs h = None -> mkdtemp h = None ->
  runEmbeddedPiAgent h = Throws e ->
  tempDirs (snd (tryCatch (tryBlock h a m) (catchBlock a m) w))
  = tempDirs w ++ [nextTemp w].
Proof.
  intros Hr Hm Ha. unfold tryCatch, tryBlock, catchBlock.
  destruct (splitProviderModel m) as [provider model].
  destruct h as [r1 r2 r3 rm]; cbn in *; subst. reflexivity.
Qed.

(** C6, amended. The slug call always carries the fixed timeout 30000 and
    tries the slug model, then the summary model, then the fallback chain;
    every request it issues carries that timeout; it is shorter than the
    summary call's timeout whenever that one exceeds 30000, as at the default
    60000 and when the setting is 0 or not a number. *)
Theorem slug_call_shape (st : settings) (summary transcript : jsstring) :
  effectiveTimeout (slugCall st summary) = 30000%Z /\
  candidates (slugCall st summary)
  = slugModel st :: summaryModel st :: fallbacks st /\
  candidates (summaryCall st transcript) = summaryModel st :: fallbacks st /\
  (forall host w, exists new,
     requests (snd (llmCall host (slugCall st summary) w)) = requests w ++ new /\
     Forall (fun r => reqTimeoutMs r = 30000%Z) new) /\
  ((30000 < effectiveTimeout (summaryCall st transcript))%Z ->
   (effectiveTimeout (slugCall st summary)
    < effectiveTimeout (summaryCall st transcript))%Z) /\
  (configuredTimeoutMs st = Int 60000 \/ configuredTimeoutMs st = Int 0
   \/ configuredTimeoutMs st = NaN ->
   (effectiveTimeout (slugCall st summary)
    < effectiveTimeout (summaryCall st transcript))%Z).
Proof.
  split; [reflexivity|]. split; [reflexivity|]. split; [reflexivity|].
  split; [|split].
  - intros host w.
    destruct (tryModels_requests host (slugCall st summary)
                (candidates (slugCall st summary)) w) as (new & Hreq & Hall).
    exists new. split; [exact Hreq|].
    eapply Forall_impl; [exact Hall|]. now intros r [Hr _].
  - intros Hlt. exact Hlt.
  - unfold effectiveTimeout. cbn [summaryCall slugCall timeoutMs].
    intros [-> | [-> | ->]]; cbn; lia.
Qed.

Lemma slug_call_shape_witness :
  (effectiveTimeout (slugCall (settings0 (Int 60000)) [])
   < effectiveTimeout (summaryCall (settings0 (Int 60000)) []))%Z.
Proof.
  apply (slug_call_shape (settings0 (Int 60000)) [] []). now left.
Defined.

(** With the per-call timeout set to ten seconds the slug call's timeout is
    the longer one. *)
Lemma slug_timeout_not_shorter :
  configuredTimeoutMs (settings0 (Int 10000)) = Int 10000 /\
  effectiveTimeout (slugCall (settings0 (Int 10000)) []) = 30000%Z /\
  effectiveTimeout (summaryCall (settings0 (Int 10000)) []) = 10000%Z /\
  ~ (effectiveTimeout (slugCall (settings0 (Int 10000)) [])
     < effectiveTimeout (summaryCall (settings0 (Int 10000)) []))%Z.
Proof. repeat split. vm_compute. discriminate. Qed.

(** ** Characters *)

Ltac bool_arith :=
  repeat match goal with
         | H : _ && _ = true |- _ => apply andb_prop in H as [? ?]
         | H : _ || _ = true |- _ => apply orb_prop in H as [?|?]
         | H : (_ <=? _)%N = true |- _ => apply N.leb_le in H
         | H : (_ <? _)%N = true |- _ => apply N.ltb_lt in H
         | H : (_ =? _)%N = true |- _ => apply N.eqb_eq in H
         end.

Section CharFacts.



Lemma digit_range (d : Z) : (48 <= digit d <= 57)%N.
Proof.
  unfold digit. pose proof (Z.mod_pos_bound d 10 ltac:(lia)). lia.
Qed.

Lemma digit_isDigit (d : Z) : isDigit (digit d) = true.
Proof.
  pose proof (digit_range d). unfold isDigit.
  apply andb_true_intro; split; apply N.leb_le; lia.
Qed.

Lemma isDigit_isSlugChar (c : N) : isDigit c = true -> isSlugChar c = true.
Proof. intros Hd. unfold isSlugChar. rewrite Hd. now rewrite orb_true_r. Qed.

Lemma digit_neq (d : Z) (k : N) : (k < 48 \/ 57 < k)%N -> digit d <> k.
Proof. pose proof (digit_range d). lia. Qed.

Lemma digit_eqb (d : Z) (k : N) :
  (k < 48 \/ 57 < k)%N -> (digit d =? k)%N = false.
Proof. intros Hk. apply N.eqb_neq. now apply digit_neq. Qed.

End CharFacts.

(** ** Splitting *)

Section SplitFacts.

Lemma split_nonempty (sep : N) (s : jsstring) : split sep s <> [].
Proof. destruct s as [|c r]; cbn; [discriminate|]. repeat case_match; discriminate. Qed.

Lemma split_without (sep : N) (s : jsstring) :
  Forall (fun c => c <> sep) s -> split sep s = [s].
Proof.
  induction 1 as [|c r Hc _ IH]; [reflexivity|].
  cbn. apply N.eqb_neq in Hc. now rewrite Hc, IH.
Qed.

Lemma split_at_first (sep : N) (a b : jsstring) :
  Forall (fun c => c <> sep) a -> split sep (a ++ sep :: b) = a :: split sep b.
Proof.
  induction 1 as [|c r Hc _ IH]; cbn.
  - now rewrite N.eqb_refl.
  - apply N.eqb_neq in Hc. now rewrite Hc, IH.
Qed.

End SplitFacts.

(** ** The clock *)

Section ClockFacts.

Ltac chars :=
  repeat (constructor; [first [apply digit_neq; lia | discriminate]|]);
  try constructor.

Lemma toISOString_shape (t : Z) :
  exists date,
    Forall (fun c => c <> 84%N) date /\
    toISOString t
    = date ++ 84%N ::
      (pad2 (utcHour t) ++ [58%N] ++ pad2 (utcMinute t) ++ [58%N]
       ++ pad2 (utcSecond t))
      ++ 46%N :: pad3 (t mod msPerDay mod 1000) ++ [90%N].
Proof.
  unfold toISOString, utcHour, utcMinute, utcSecond.
  destruct (civilFromDays (t / msPerDay)) as [[y m] d].
  exists (yearString y ++ [45%N] ++ pad2 m ++ [45%N] ++ pad2 d). split.
  - unfold yearString, pad6, pad4, pad3, pad2.
    destruct ((0 <=? y)%Z && (y <=? 9999)%Z); [|destruct (y <? 0)%Z]; cbn; chars.
  - rewrite <- !app_assoc. reflexivity.
Qed.

(** Line 362 in closed form: the digits of the UTC hour and minute. *)
Lemma fallbackSlug_value (now : Z) :
  fallbackSlug now = Returns (pad2 (utcHour now) ++ pad2 (utcMinute now)).
Proof.
  unfold fallbackSlug.
  destruct (toISOString_shape now) as (date & Hdate & ->).
  rewrite split_at_first by exact Hdate.
  rewrite split_without by (unfold pad3, pad2; cbn; chars).
  unfold at_. cbn [lookup list_lookup].
  rewrite split_at_first by (unfold pad2; cbn; chars).
  cbn [lookup list_lookup]. f_equal.
  unfold pad2. cbn [app List.filter].
  rewrite !digit_eqb by lia. cbn [negb].
  change 4%Z with (Z.of_nat 4). now rewrite slice_prefix.
Qed.

End ClockFacts.

(** ** Slug clean-up *)

Section HyphenFacts.

Lemma dropWhile_split (p : N -> bool) (s : jsstring) :
  exists pre, Forall (fun c => p c = true) pre /\ s = pre ++ dropWhile p s.
Proof.
  induction s as [|c r (pre & Hpre & Hr)]; [now exists []|].
  cbn. destruct (p c) eqn:Hc.
  - exists (c :: pre). split; [now constructor|]. cbn. now f_equal.
  - now exists [].
Qed.

(** [trim] removes a run of white space at each end and nothing else. *)
Lemma trim_split (s : jsstring) :
  exists before after,
    allWhiteSpace before /\ allWhiteSpace after /\
    s = before ++ trim s ++ after.
Proof.
  unfold trim, trimEnd, trimStart.
  destruct (dropWhile_split isWhiteSpace s) as (before & Hb & Hs).
  destruct (dropWhile_split isWhiteSpace (rev (dropWhile isWhiteSpace s)))
    as (post & Hp & Hr).
  exists before, (rev post). split; [exact Hb|]. split.
  - unfold allWhiteSpace. rewrite Forall_forall in *.
    intros c Hc. apply Hp. now apply list_elem_of_In, in_rev, list_elem_of_In.
  - rewrite <- rev_app_distr, <- Hr, rev_involutive. exact Hs.
Qed.

Lemma startsWith_nil (s : jsstring) : startsWith s [] = true.
Proof. now destruct s. Qed.

Lemma startsWith_cons (c a : N) (s p : jsstring) :
  startsWith (c :: s) (a :: p) = (c =? a)%N && startsWith s p.
Proof. reflexivity. Qed.

Lemma startsWith_hyphen (s : jsstring) :
  startsWith s [HYPHEN] = true <-> exists r, s = HYPHEN :: r.
Proof.
  destruct s as [|c r].
  - split; [discriminate|intros [? ?]; discriminate].
  - rewrite startsWith_cons, startsWith_nil, andb_true_r. split.
    + intros Hc. apply N.eqb_eq in Hc. subst. now exists r.
    + intros [r' Heq]. inversion Heq. apply N.eqb_refl.
Qed.

Lemma collapse_cons (c : N) (r : jsstring) :
  collapseHyphens (c :: r)
  = if (c =? HYPHEN)%N && startsWith r [HYPHEN] then collapseHyphens r
    else c :: collapseHyphens r.
Proof. reflexivity. Qed.

(** Collapsing keeps the first character. *)
Lemma collapse_head (s : jsstring) :
  startsWith (collapseHyphens s) [HYPHEN] = startsWith s [HYPHEN].
Proof.
  induction s as [|c r IH]; [reflexivity|].
  rewrite collapse_cons.
  destruct ((c =? HYPHEN)%N && startsWith r [HYPHEN]) eqn:Hc.
  - apply andb_prop in Hc as [Hc Hr]. rewrite IH, Hr.
    now rewrite startsWith_cons, startsWith_nil, Hc.
  - now rewrite !startsWith_cons, !startsWith_nil.
Qed.


Lemma collapse_separated (s : jsstring) : separated (collapseHyphens s).
Proof.
  induction s as [|c r IH]; intros a b.
  - cbn. destruct a; discriminate.
  - rewrite collapse_cons.
    destruct ((c =? HYPHEN)%N && startsWith r [HYPHEN]) eqn:Hc; [apply IH|].
    destruct a as [|x a]; cbn.
    + intros [= -> Hr].
      assert (Hs : startsWith (collapseHyphens r) [HYPHEN] = true)
        by (apply startsWith_hyphen; eauto).
      rewrite collapse_head in Hs. now rewrite Hs, N.eqb_refl in Hc.
    + intros [= _ Hr]. exact (IH _ _ Hr).
Qed.


Lemma separated_tail (c : N) (s : jsstring) : separated (c :: s) -> separated s.
Proof. intros Hs a b ->. exact (Hs (c :: a) b eq_refl). Qed.

Lemma separated_rev (s : jsstring) : separated s -> separated (rev s).
Proof.
  intros Hs a b Hr. apply (Hs (rev b) (rev a)).
  rewrite <- (rev_involutive s), Hr, rev_app_distr. cbn.
  now rewrite <- !app_assoc.
Qed.

Lemma dropLeading_separated (s : jsstring) :
  separated s -> separated (dropLeadingHyphen s).
Proof.
  destruct s as [|c r]; [easy|]. cbn.
  destruct (c =? HYPHEN)%N; [apply separated_tail|easy].
Qed.





Lemma dropTrailing_snoc (s : jsstring) (c : N) :
  dropTrailingHyphen (s ++ [c]) = if (c =? HYPHEN)%N then s else s ++ [c].
Proof.
  unfold dropTrailingHyphen. rewrite rev_app_distr. cbn.
  destruct (c =? HYPHEN)%N; [apply rev_involutive|].
  cbn. now rewrite rev_involutive.
Qed.

Lemma dropTrailing_cons (c : N) (s : jsstring) :
  s <> [] -> dropTrailingHyphen (c :: s) = c :: dropTrailingHyphen s.
Proof.
  intros Hs. destruct (exists_last Hs) as (r & x & ->).
  change (c :: r ++ [x]) with ((c :: r) ++ [x]).
  rewrite !dropTrailing_snoc. now destruct (x =? HYPHEN)%N.
Qed.

(** Hyphens added at the end do not survive collapsing and trimming. *)
Lemma dropTrailing_single (c : N) :
  dropTrailingHyphen [c] = if (c =? HYPHEN)%N then [] else [c].
Proof. exact (dropTrailing_snoc [] c). Qed.




End HyphenFacts.

Section SlugFacts.

Context `{CaseTables}.




Lemma collapse_Forall (P : N -> Prop) (s : jsstring) :
  Forall P s -> Forall P (collapseHyphens s).
Proof.
  induction 1 as [|c r Hc _ IH]; [constructor|].
  rewrite collapse_cons. destruct (_ && _); [exact IH|now constructor].
Qed.

Lemma dropLeading_Forall (P : N -> Prop) (s : jsstring) :
  Forall P s -> Forall P (dropLeadingHyphen s).
Proof.
  destruct 1 as [|c r Hc Hr]; [constructor|].
  cbn. destruct (c =? HYPHEN)%N; [exact Hr|now constructor].
Qed.

Lemma trimHyphenEnds_Forall (P : N -> Prop) (s : jsstring) :
  Forall P s -> Forall P (trimHyphenEnds s).
Proof.
  intros Hs. unfold trimHyphenEnds, dropTrailingHyphen.
  apply Forall_rev, dropLeading_Forall, Forall_rev, dropLeading_Forall, Hs.
Qed.

Lemma hyphenate_slugChars (s : jsstring) :
  Forall (fun c => isSlugChar c = true) (hyphenate s).
Proof.
  unfold hyphenate. apply Forall_map, Forall_forall. intros c _.
  cbn. destruct (isSlugChar c) eqn:Hc; [exact Hc|reflexivity].
Qed.

Lemma cleanSlug_shape (slug : jsstring) :
  length (cleanSlug slug) <= 40 /\
  Forall (fun c => isSlugChar c = true) (cleanSlug slug).
Proof.
  unfold cleanSlug. change 40%Z with (Z.of_nat 40). rewrite slice_prefix.
  split; [rewrite length_take; lia|].
  apply Forall_take, trimHyphenEnds_Forall, collapse_Forall, hyphenate_slugChars.
Qed.

Lemma dropLeading_head (s : jsstring) :
  separated s -> startsWith (dropLeadingHyphen s) [HYPHEN] = false.
Proof.
  intros Hs. destruct s as [|x r]; [reflexivity|]. cbn [dropLeadingHyphen].
  destruct (x =? HYPHEN)%N eqn:Hx.
  - destruct (startsWith r [HYPHEN]) eqn:Hr; [|reflexivity].
    apply startsWith_hyphen in Hr as [r' ->].
    apply N.eqb_eq in Hx. subst. now destruct (Hs [] r').
  - now rewrite startsWith_cons, Hx.
Qed.

Lemma dropTrailing_head (s : jsstring) :
  startsWith s [HYPHEN] = false ->
  startsWith (dropTrailingHyphen s) [HYPHEN] = false.
Proof.
  destruct s as [|x [|y r]]; [reflexivity| |].
  - rewrite dropTrailing_single, startsWith_cons, startsWith_nil, andb_true_r.
    intros Hx. now rewrite Hx, startsWith_cons, Hx.
  - rewrite dropTrailing_cons by discriminate.
    rewrite !startsWith_cons, !startsWith_nil.
    now intros ->.
Qed.

Lemma take_head (n : nat) (s : jsstring) :
  startsWith s [HYPHEN] = false -> startsWith (take n s) [HYPHEN] = false.
Proof.
  destruct s as [|x r]; [now rewrite take_nil|].
  destruct n as [|n]; [reflexivity|]. cbn [take].
  now rewrite !startsWith_cons, !startsWith_nil.
Qed.

(** A cleaned slug never starts with a hyphen. *)
Lemma cleanSlug_head (slug : jsstring) :
  startsWith (cleanSlug slug) [HYPHEN] = false.
Proof.
  unfold cleanSlug. change 40%Z with (Z.of_nat 40). rewrite slice_prefix.
  apply take_head, dropTrailing_head, dropLeading_head, collapse_separated.
Qed.

Lemma fallback_shape (now : Z) :
  let token := pad2 (utcHour now) ++ pad2 (utcMinute now) in
  length token = 4 /\ Forall (fun c => isDigit c = true) token /\
  ~ In 58%N token.
Proof.
  cbv zeta. unfold pad2. cbn [app length]. split; [reflexivity|]. split.
  - repeat constructor; apply digit_isDigit.
  - cbn [In]. intros [Hc|[Hc|[Hc|[Hc|[]]]]];
      revert Hc; apply digit_neq; lia.
Qed.

Lemma finalSlug_fallback (slug : option jsstring) (now : Z) :
  slug = None \/ (exists s, slug = Some s /\ length (cleanSlug s) < 3) ->
  finalSlug slug now = fallbackSlug now.
Proof.
  intros [-> | (s & -> & Hlen)]; [reflexivity|].
  unfold finalSlug. destruct (truthy s) eqn:Hs.
  - apply Nat.ltb_lt in Hlen. rewrite Hlen. now rewrite orb_true_r.
  - now rewrite Hs.
Qed.


(** C7, amended. The substitute slug is the two digits of the UTC hour
    followed by the two digits of the UTC minute: four characters, no colon,
    and the same for every instant of that minute. *)
Theorem fallback_slug_is_hour_and_minute (slug : option jsstring) (now : Z) :
  slug = None \/ (exists s, slug = Some s /\ length (cleanSlug s) < 3) ->
  let token := pad2 (utcHour now) ++ pad2 (utcMinute now) in
  finalSlug slug now = Returns token /\
  length token = 4 /\
  Forall (fun c => isDigit c = true) token /\
  ~ In 58%N token /\
  (forall later, utcHour later = utcHour now ->
                 utcMinute later = utcMinute now ->
                 finalSlug slug later = Returns token).
Proof.
  intros Hfail token.
  destruct (fallback_shape now) as (Hlen & Hdig & Hcolon).
  split; [|split; [exact Hlen|split; [exact Hdig|split; [exact Hcolon|]]]].
  - now rewrite finalSlug_fallback, fallbackSlug_value.
  - intros later Hh Hm. rewrite finalSlug_fallback, fallbackSlug_value by exact Hfail.
    subst token. now rewrite Hh, Hm.
Qed.

(** C10. The slug that goes into the file name has 3 to 40 characters, all
    of them lowercase letters, digits or hyphens; it can carry a hyphen at
    an end (the last character of a capped slug). *)
Theorem final_slug_shape :
  (forall slug now, exists s,
     finalSlug slug now = Returns s /\
     3 <= length s <= 40 /\
     Forall (fun c => isSlugChar c = true) s) /\
  (exists slug now s,
     finalSlug slug now = Returns s /\
     (head s = Some HYPHEN \/ last s = Some HYPHEN)).
Proof.
  split.
  - intros slug now.
    assert (Hfb : exists s, fallbackSlug now = Returns s /\
                            3 <= length s <= 40 /\
                            Forall (fun c => isSlugChar c = true) s).
    { rewrite fallbackSlug_value. eexists. split; [reflexivity|].
      destruct (fallback_shape now) as (Hlen & Hdig & _).
      split; [rewrite Hlen; lia|].
      eapply Forall_impl; [exact Hdig|]. intros c. apply isDigit_isSlugChar. }
    destruct slug as [s|]; [|exact Hfb].
    unfold finalSlug. destruct (truthy s) eqn:Hs.
    + destruct (cleanSlug_shape s) as (Hle & Hchars).
      destruct (_ || _) eqn:Hshort; [exact Hfb|].
      apply orb_false_elim in Hshort as [_ Hshort].
      apply Nat.ltb_ge in Hshort.
      exists (cleanSlug s). split; [reflexivity|]. split; [lia|exact Hchars].
    + rewrite Hs. exact Hfb.
  - exists (Some longSlug), 0%Z. eexists. split; [vm_compute; reflexivity|].
    right. reflexivity.
Qed.

(** The slug in the file name never starts with a hyphen. *)
Lemma finalSlug_head (slug : option jsstring) (now : Z) (s : jsstring) :
  finalSlug slug now = Returns s -> startsWith s [HYPHEN] = false.
Proof.
  assert (Hfb : fallbackSlug now = Returns s -> startsWith s [HYPHEN] = false).
  { rewrite fallbackSlug_value. intros [= <-]. unfold pad2. cbn.
    rewrite andb_true_r. apply digit_eqb. unfold HYPHEN. lia. }
  destruct slug as [x|]; [|exact Hfb].
  unfold finalSlug. destruct (truthy x) eqn:Hx.
  - destruct (_ || _); [exact Hfb|]. intros [= <-]. apply cleanSlug_head.
  - rewrite Hx. exact Hfb.
Qed.

End SlugFacts.

Lemma fallback_slug_is_hour_and_minute_witness :
  @finalSlug plainCase (Some (lit "ab")) 45296000 = Returns (lit "1234").
Proof.
  refine (proj1 (@fallback_slug_is_hour_and_minute plainCase
                   (Some (lit "ab")) 45296000 _)).
  right. exists (lit "ab"). split; [reflexivity|vm_compute; lia].
Defined.

(** 12:34:56 and 12:34:57 UTC get the same token. *)
Lemma fallback_slug_drops_seconds :
  utcSecond 45296000 = 56%Z /\ utcSecond 45297000 = 57%Z /\
  fallbackSlug 45296000 = Returns (lit "1234") /\
  fallbackSlug 45297000 = Returns (lit "1234").
Proof. repeat split; vm_compute; reflexivity. Qed.

(** ** Saving *)

Section ArchiveFacts.

Lemma lit_inj (a b : string) : lit a = lit b -> a = b.
Proof.
  unfold lit. intros Hab.
  rewrite <- (string_of_list_ascii_of_string a),
          <- (string_of_list_ascii_of_string b).
  f_equal. revert Hab.
  generalize (list_ascii_of_string a) (list_ascii_of_string b).
  induction l as [|x l IH]; intros [|y l']; cbn; try discriminate; [easy|].
  intros [= Hxy Hl]. f_equal; [|now apply IH].
  rewrite <- (ascii_N_embedding x), <- (ascii_N_embedding y). now f_equal.
Qed.

Variables date slug : jsstring.

Lemma altName_inj (i j : nat) :
  altName date slug i = altName date slug j -> i = j.
Proof.
  unfold altName. intros Hij.
  repeat apply app_inv_head in Hij.
  apply app_inv_tail, lit_inj in Hij. exact (inj pretty _ _ Hij).
Qed.

Lemma baseName_not_alt (i : nat) : baseName date slug <> altName date slug i.
Proof.
  unfold baseName, altName. intros Hij.
  repeat apply app_inv_head in Hij. discriminate Hij.
Qed.

Variable dir : directory.

Lemma exists_true (name : jsstring) :
  exists_ dir name = true <-> is_Some (dir !! name).
Proof. unfold exists_. apply bool_decide_eq_true. Qed.

Lemma exists_false (name : jsstring) :
  exists_ dir name = false <-> dir !! name = None.
Proof.
  unfold exists_. rewrite bool_decide_eq_false. split.
  - intros Hn. destruct (dir !! name) eqn:Hd; [|reflexivity].
    destruct Hn. eauto.
  - intros -> [x Hx]. discriminate Hx.
Qed.

(** The loop leaves at the first free suffix, given iterations enough to
    reach it. *)
Lemma probe_first_free (fuel i k : nat) :
  (forall j, i <= j < k -> exists_ dir (altName date slug j) = true) ->
  exists_ dir (altName date slug k) = false ->
  i <= k -> k - i < fuel ->
  probe fuel dir date slug i = Some (altName date slug k).
Proof.
  revert i. induction fuel as [|fuel IH]; intros i Htaken Hfree Hik Hfuel; [lia|].
  cbn [probe]. destruct (decide (i = k)) as [->|Hne].
  - now rewrite Hfree.
  - rewrite Htaken by lia. apply IH; [|exact Hfree|lia|lia].
    intros j Hj. apply Htaken. lia.
Qed.

Lemma probe_result (fuel i : nat) :
  match probe fuel dir date slug i with
  | Some p => exists k, p = altName date slug k /\ i <= k < i + fuel /\
                        (forall j, i <= j < k ->
                                   exists_ dir (altName date slug j) = true) /\
                        exists_ dir (altName date slug k) = false
  | None => forall j, i <= j < i + fuel ->
                      exists_ dir (altName date slug j) = true
  end.
Proof.
  revert i. induction fuel as [|fuel IH]; intros i; cbn [probe]; [intros j; lia|].
  destruct (exists_ dir (altName date slug i)) eqn:Hi.
  - specialize (IH (S i)). destruct (probe fuel dir date slug (S i)) as [p|].
    + destruct IH as (k & -> & Hk & Htaken & Hfree).
      exists k. split; [reflexivity|]. split; [lia|]. split; [|exact Hfree].
      intros j Hj. destruct (decide (j = i)) as [->|Hne]; [exact Hi|].
      apply Htaken. lia.
    + intros j Hj. destruct (decide (j = i)) as [->|Hne]; [exact Hi|].
      apply IH. lia.
  - exists i. split; [reflexivity|]. split; [lia|]. split; [|exact Hi].
    intros j Hj. lia.
Qed.

(** A directory cannot hold more suffixed names than it has entries. *)
Lemma suffixes_run_out (i : nat) :
  ~ (forall j, i <= j < i + S (size dir) ->
               exists_ dir (altName date slug j) = true).
Proof.
  intros Hall.
  set (names := map (altName date slug) (seq i (S (size dir)))).
  assert (Hnodup : NoDup names).
  { apply NoDup_fmap_2; [intros x y; apply altName_inj|apply NoDup_seq]. }
  assert (Hsub : (list_to_set names : gset (list N)) ⊆ dom dir).
  { intros name Hname. apply elem_of_list_to_set in Hname.
    apply list_elem_of_fmap in Hname as (j & -> & Hj).
    apply elem_of_seq in Hj. apply elem_of_dom, exists_true, Hall. lia. }
  apply subseteq_size in Hsub.
  rewrite size_list_to_set in Hsub by exact Hnodup.
  rewrite size_dom in Hsub. unfold names in Hsub.
  rewrite length_map, length_seq in Hsub. lia.
Qed.

Lemma probe_total (i : nat) :
  exists k,
    i <= k <= i + size dir /\
    (forall j, i <= j < k -> exists_ dir (altName date slug j) = true) /\
    exists_ dir (altName date slug k) = false /\
    (forall fuel, size dir < fuel ->
                  probe fuel dir date slug i = Some (altName date slug k)).
Proof.
  pose proof (probe_result (S (size dir)) i) as Hp.
  destruct (probe (S (size dir)) dir date slug i) as [p|].
  - destruct Hp as (k & -> & Hk & Htaken & Hfree).
    exists k. split; [lia|]. split; [exact Htaken|]. split; [exact Hfree|].
    intros fuel Hfuel. apply probe_first_free; [exact Htaken|exact Hfree|lia|lia].
  - destruct (suffixes_run_out i Hp).
Qed.

(** Lines 376-393 always settle on a name that is not yet taken: the plain
    name when it is free, else the first free suffix from 2 upwards. *)
Lemma finalPath_total :
  exists p,
    (forall fuel, size dir < fuel -> finalPath fuel dir date slug = Some p) /\
    dir !! p = None /\
    (p = baseName date slug \/
     exists k, 2 <= k <= size dir + 2 /\ p = altName date slug k /\
               is_Some (dir !! baseName date slug) /\
               forall j, 2 <= j < k -> is_Some (dir !! altName date slug j)).
Proof.
  unfold finalPath. destruct (exists_ dir (baseName date slug)) eqn:Hb.
  - destruct (probe_total 2) as (k & Hk & Htaken & Hfree & Hrun).
    exists (altName date slug k). split; [exact Hrun|].
    split; [now apply exists_false|]. right. exists k.
    split; [lia|]. split; [reflexivity|]. split; [now apply exists_true|].
    intros j Hj. now apply exists_true, Htaken.
  - exists (baseName date slug). split; [reflexivity|].
    split; [now apply exists_false|now left].
Qed.

End ArchiveFacts.

Section SaveFacts.

Variables date session slug : jsstring.



Lemma finalPath_base (dir : directory) (fuel : nat) :
  dir !! baseName date slug = None ->
  finalPath fuel dir date slug = Some (baseName date slug).
Proof.
  intros Hfree. unfold finalPath.
  now rewrite (proj2 (exists_false dir _) Hfree).
Qed.



(** C8, amended. The loop has no bound of its own: it ends because the
    directory is finite, on the first free suffix, which is at most the
    number of entries plus two; more iterations than the directory has
    entries are always enough, and there is no failure. *)
Theorem suffix_probe_terminates (dir : directory) :
  exists p,
    (forall fuel, size dir < fuel -> finalPath fuel dir date slug = Some p) /\
    dir !! p = None /\
    (p = baseName date slug \/
     exists k, 2 <= k <= size dir + 2 /\ p = altName date slug k /\
               is_Some (dir !! baseName date slug) /\
               forall j, 2 <= j < k -> is_Some (dir !! altName date slug j)).
Proof. apply finalPath_total. Qed.

Lemma crowded_dom (n : nat) (name : jsstring) :
  is_Some (crowded date slug n !! name) <->
  name = baseName date slug \/
  exists j, 2 <= j < 2 + n /\ name = altName date slug j.
Proof.
  rewrite <- elem_of_dom. unfold crowded.
  rewrite dom_list_to_map_L, elem_of_list_to_set.
  rewrite fmap_cons, elem_of_cons. cbn [fst].
  rewrite <- list_fmap_compose. split.
  - intros [->|Hin]; [now left|right].
    apply list_elem_of_fmap in Hin as (j & -> & Hj).
    apply elem_of_seq in Hj. exists j. now split.
  - intros [->|(j & Hj & ->)]; [now left|right].
    apply list_elem_of_fmap. exists j. split; [reflexivity|].
    now apply elem_of_seq.
Qed.

(** In a directory where the plain name and the suffixes 2 .. n+1 are taken
    the loop runs to suffix n+2 and succeeds. *)
Lemma crowded_path (n : nat) :
  finalPath (enough (crowded date slug n)) (crowded date slug n) date slug
  = Some (altName date slug (2 + n)).
Proof.
  destruct (finalPath_total date slug (crowded date slug n))
    as (p & Hrun & Hfree & Hp).
  unfold enough. rewrite Hrun by lia. f_equal.
  destruct Hp as [->|(k & Hk & -> & _ & Htaken)].
  - assert (Hs : is_Some (crowded date slug n !! baseName date slug))
      by (apply crowded_dom; now left).
    rewrite Hfree in Hs. now destruct Hs.
  - f_equal. destruct (Nat.lt_trichotomy k (2 + n)) as [Hlt|[Heq|Hgt]];
      [|exact Heq|].
    + assert (Hs : is_Some (crowded date slug n !! altName date slug k))
        by (apply crowded_dom; right; exists k; split; [lia|reflexivity]).
      rewrite Hfree in Hs. now destruct Hs.
    + specialize (Htaken (2 + n) ltac:(lia)).
      apply crowded_dom in Htaken as [Hbase|(j & Hj & Heq)].
      * symmetry in Hbase. now apply baseName_not_alt in Hbase.
      * apply altName_inj in Heq. lia.
Qed.

End SaveFacts.



(** No number bounds the suffix the loop may reach. *)
Lemma suffix_probe_has_no_bound :
  ~ exists bound, forall (dir : directory) date slug k,
      finalPath (enough dir) dir date slug = Some (altName date slug k) ->
      k <= bound.
Proof.
  intros [bound Hbound].
  specialize (Hbound (crowded [] [] bound) [] [] (2 + bound)
                (crowded_path [] [] bound)).
  lia.
Qed.

(** * Further properties of the code *)

(** ** Trimming and the noise verdict *)

Section TrimFacts.

Lemma dropWhile_all (p : N -> bool) (pre s : jsstring) :
  Forall (fun c => p c = true) pre -> dropWhile p (pre ++ s) = dropWhile p s.
Proof. induction 1 as [|c r Hc _ IH]; [reflexivity|]. cbn. now rewrite Hc. Qed.

Lemma dropWhile_app (p : N -> bool) (s t : jsstring) :
  dropWhile p s <> [] -> dropWhile p (s ++ t) = dropWhile p s ++ t.
Proof.
  induction s as [|c r IH]; cbn; [congruence|].
  destruct (p c); [exact IH|reflexivity].
Qed.

Lemma dropWhile_nil (p : N -> bool) (s : jsstring) :
  dropWhile p s = [] -> Forall (fun c => p c = true) s.
Proof.
  induction s as [|c r IH]; cbn; [constructor|].
  destruct (p c) eqn:Hc; [|discriminate]. intros Hr. constructor; auto.
Qed.

Lemma trimEnd_app_white (s after : jsstring) :
  allWhiteSpace after -> trimEnd (s ++ after) = trimEnd s.
Proof.
  intros Ha. unfold trimEnd. rewrite rev_app_distr. f_equal.
  apply dropWhile_all. now apply Forall_rev.
Qed.

(** White space around a text does not change what [trim] gives. *)
Lemma trim_outer (before s after : jsstring) :
  allWhiteSpace before -> allWhiteSpace after ->
  trim (before ++ s ++ after) = trim s.
Proof.
  intros Hb Ha. unfold trim, trimStart. rewrite dropWhile_all by exact Hb.
  destruct (dropWhile isWhiteSpace s) as [|c r] eqn:Hs.
  - apply dropWhile_nil in Hs.
    rewrite dropWhile_all by exact Hs.
    rewrite <- (app_nil_r after), dropWhile_all by exact Ha. reflexivity.
  - rewrite dropWhile_app by (rewrite Hs; discriminate). rewrite Hs.
    now apply trimEnd_app_white.
Qed.

Lemma trim_idempotent (s : jsstring) : trim (trim s) = trim s.
Proof.
  destruct (trim_split s) as (before & after & Hb & Ha & Hs).
  rewrite Hs at 2. symmetry. now apply trim_outer.
Qed.

(** A text that begins and ends with characters other than white space
    keeps them: only what follows is trimmed at its end. *)
Lemma trim_keeps (c d : N) (mid s : jsstring) :
  isWhiteSpace c = false -> isWhiteSpace d = false ->
  trim ((c :: mid ++ [d]) ++ s) = (c :: mid ++ [d]) ++ trimEnd s.
Proof.
  intros Hc Hd. unfold trim, trimStart. cbn [app dropWhile]. rewrite Hc.
  change (c :: (mid ++ [d]) ++ s) with ((c :: mid ++ [d]) ++ s).
  set (p := c :: mid ++ [d]).
  assert (Hstop : dropWhile isWhiteSpace (rev p) = rev p).
  { unfold p. change (c :: mid ++ [d]) with ((c :: mid) ++ [d]).
    rewrite rev_app_distr. cbn [rev app dropWhile]. now rewrite Hd. }
  unfold trimEnd. rewrite rev_app_distr.
  destruct (dropWhile isWhiteSpace (rev s)) as [|x r] eqn:Hs.
  - apply dropWhile_nil in Hs. rewrite dropWhile_all by exact Hs.
    rewrite Hstop, rev_involutive. cbn [rev]. now rewrite app_nil_r.
  - rewrite dropWhile_app by (rewrite Hs; discriminate). rewrite Hs.
    now rewrite rev_app_distr, rev_involutive.
Qed.

Lemma trim_keeps_head (c : N) (s : jsstring) :
  isWhiteSpace c = false -> trim (c :: s) = c :: trimEnd s.
Proof.
  intros Hc. unfold trim, trimStart. cbn [dropWhile]. rewrite Hc.
  unfold trimEnd. cbn [rev].
  destruct (dropWhile isWhiteSpace (rev s)) as [|x r] eqn:Hs.
  - apply dropWhile_nil in Hs. rewrite dropWhile_all by exact Hs.
    cbn [dropWhile]. now rewrite Hc.
  - rewrite dropWhile_app by (rewrite Hs; discriminate). rewrite Hs.
    now rewrite rev_app_distr.
Qed.

Lemma startsWith_app (p s : jsstring) : startsWith (p ++ s) p = true.
Proof.
  induction p as [|c p IH]; [apply startsWith_nil|].
  cbn [app]. now rewrite startsWith_cons, N.eqb_refl, IH.
Qed.

Lemma startsWith_prefix (p q s : jsstring) :
  startsWith s (p ++ q) = true -> startsWith s p = true.
Proof.
  revert s. induction p as [|c p IH]; intros s; [intros _; apply startsWith_nil|].
  destruct s as [|x s]; [discriminate|].
  cbn [app]. rewrite !startsWith_cons. intros Hs.
  apply andb_prop in Hs as [Hx Hs]. now rewrite Hx, (IH _ Hs).
Qed.

End TrimFacts.

Section NoiseFacts.

Lemma isNoise_outer (before s after : jsstring) :
  allWhiteSpace before -> allWhiteSpace after ->
  isNoise (before ++ s ++ after) = isNoise s.
Proof. intros Hb Ha. unfold isNoise. now rewrite trim_outer. Qed.

(** X1. The noise verdict looks at the trimmed text only: white space before
    and after a text never changes it. *)
Theorem isNoise_ignores_outer_white_space (before s after : jsstring) :
  allWhiteSpace before -> allWhiteSpace after ->
  isNoise (before ++ s ++ after) = isNoise s.
Proof.
  intros Hb Ha. transitivity (isNoise (trim s)).
  - unfold isNoise. now rewrite trim_outer, trim_idempotent.
  - unfold isNoise. now rewrite trim_idempotent.
Qed.

Lemma isNoise_pattern (pat : jsstring -> bool) (text : jsstring) :
  In pat NOISE_PATTERNS -> pat (trim text) = true -> isNoise text = true.
Proof.
  intros Hin Hpat. unfold isNoise.
  destruct (negb (truthy (trim text))); [reflexivity|].
  destruct (startsWith (trim text) (lit "/")); [reflexivity|].
  apply existsb_exists. eauto.
Qed.

(** X2. A text that starts, after any white space, with a slash or with one
    of the administrative prefixes is noise, whatever follows. *)
Theorem isNoise_by_prefix (before p rest : jsstring) :
  allWhiteSpace before -> In p noisePrefixes ->
  isNoise (before ++ p ++ rest) = true.
Proof.
  intros Hb Hp.
  replace (before ++ p ++ rest) with (before ++ (p ++ rest) ++ [])
    by now rewrite app_nil_r.
  rewrite isNoise_outer by (exact Hb || constructor).
  assert (Htrim : exists x, trim (p ++ rest) = p ++ x).
  { cbn [In noisePrefixes] in Hp. destruct Hp as [<-|[<-|[<-|[<-|[]]]]].
    - exists (trimEnd rest). exact (trim_keeps_head 47 rest eq_refl).
    - exists (trimEnd rest).
      exact (trim_keeps 82 100 (lit "ead HEARTBEAT.m") rest eq_refl eq_refl).
    - exists (trimEnd rest).
      exact (trim_keeps 65 114 (lit "n async command you ran earlie") rest
               eq_refl eq_refl).
    - exists (trimEnd rest).
      exact (trim_keeps 65 100 (lit "pproval required (i") rest
               eq_refl eq_refl). }
  destruct Htrim as [x Htrim].
  cbn [In noisePrefixes] in Hp. destruct Hp as [<-|[<-|[<-|[<-|[]]]]].
  - unfold isNoise. rewrite Htrim. change (lit "/") with [47%N].
    cbn [app truthy negb]. now rewrite startsWith_cons, startsWith_nil.
  - apply (isNoise_pattern (fun s => startsWith s (lit "Read HEARTBEAT.md")));
      [cbn; tauto|]. rewrite Htrim. apply startsWith_app.
  - apply (isNoise_pattern
             (fun s => startsWith s (lit "An async command you ran earlier")));
      [cbn; tauto|]. rewrite Htrim. apply startsWith_app.
  - apply (isNoise_pattern
             (fun s => startsWith s (lit "Approval required (id")));
      [cbn; tauto|]. rewrite Htrim. apply startsWith_app.
Qed.

Lemma afterDotStar_reaches (tail stamp rest : jsstring) :
  Forall (fun c => isLineTerminator c = false) stamp ->
  afterDotStar tail (stamp ++ tail ++ rest) = true.
Proof.
  induction 1 as [|c r Hc _ IH].
  - cbn [app]. destruct (tail ++ rest) eqn:Ht; cbn [afterDotStar];
      rewrite <- Ht, startsWith_app; reflexivity.
  - cbn [app afterDotStar]. rewrite Hc, IH. apply orb_true_r.
Qed.

Lemma matchSystemExec_hit (what : string) (stamp rest : jsstring) :
  Forall (fun c => isLineTerminator c = false) stamp ->
  matchSystemExec what
    (lit "System: [" ++ stamp ++ (lit "] Exec " ++ lit what) ++ rest) = true.
Proof.
  intros Hs. unfold matchSystemExec. rewrite startsWith_app.
  change (drop 9 (lit "System: [" ++ ?x)) with x.
  now apply afterDotStar_reaches.
Qed.

(** X3. An execution notice, [System: [<stamp>] Exec finished] or [... Exec
    started] with a stamp on one line, is noise, whatever white space stands
    before it and whatever text follows. *)
Theorem isNoise_exec_notice (what : string) (before stamp rest : jsstring) :
  In what ["finished"; "started"]%string ->
  allWhiteSpace before ->
  Forall (fun c => isLineTerminator c = false) stamp ->
  isNoise (before ++ (lit "System: [" ++ stamp ++ lit "] Exec " ++ lit what)
                  ++ rest) = true.
Proof.
  intros Hw Hb Hs.
  replace (before ++ (lit "System: [" ++ stamp ++ lit "] Exec " ++ lit what)
                  ++ rest)
    with (before ++ ((lit "System: [" ++ stamp ++ lit "] Exec " ++ lit what)
                     ++ rest) ++ []) by now rewrite app_nil_r.
  rewrite isNoise_outer by (exact Hb || constructor).
  assert (Htrim : trim ((lit "System: [" ++ stamp ++ lit "] Exec " ++ lit what)
                        ++ rest)
                  = lit "System: [" ++ stamp ++ (lit "] Exec " ++ lit what)
                    ++ trimEnd rest).
  { cbn [In] in Hw. destruct Hw as [<-|[<-|[]]].
    - change (lit "] Exec " ++ lit "finished")
        with (lit "] Exec finishe" ++ [100%N]).
      change (lit "System: [") with (83%N :: lit "ystem: [").
      cbn [app]. rewrite (app_assoc stamp), (app_assoc (lit "ystem: [")).
      etrans; [exact (trim_keeps 83 100
                        (lit "ystem: [" ++ stamp ++ lit "] Exec finishe")
                        rest eq_refl eq_refl)|].
      cbn [app]. now rewrite <- !app_assoc.
    - change (lit "] Exec " ++ lit "started")
        with (lit "] Exec starte" ++ [100%N]).
      change (lit "System: [") with (83%N :: lit "ystem: [").
      cbn [app]. rewrite (app_assoc stamp), (app_assoc (lit "ystem: [")).
      etrans; [exact (trim_keeps 83 100
                        (lit "ystem: [" ++ stamp ++ lit "] Exec starte")
                        rest eq_refl eq_refl)|].
      cbn [app]. now rewrite <- !app_assoc. }
  apply (isNoise_pattern (matchSystemExec what)).
  - cbn [In] in Hw. destruct Hw as [<-|[<-|[]]]; cbn; tauto.
  - rewrite Htrim. now apply matchSystemExec_hit.
Qed.

End NoiseFacts.

Lemma isNoise_ignores_outer_white_space_witness :
  isNoise (lit "  " ++ lit "HEARTBEAT_OK" ++ [32; 10]%N)
  = isNoise (lit "HEARTBEAT_OK").
Proof.
  apply (isNoise_ignores_outer_white_space (lit "  ") (lit "HEARTBEAT_OK")
           [32; 10]%N); repeat constructor.
Defined.

Lemma isNoise_by_prefix_witness :
  isNoise (lit " " ++ lit "Approval required (id" ++ lit " 42) to run rm")
  = true.
Proof.
  apply (isNoise_by_prefix (lit " ") (lit "Approval required (id")
           (lit " 42) to run rm")).
  - repeat constructor.
  - cbn. tauto.
Defined.

Lemma isNoise_exec_notice_witness :
  isNoise ([] ++ (lit "System: [" ++ lit "2026-02-04 10:00" ++ lit "] Exec "
                  ++ lit "finished") ++ lit " (exit 0)") = true.
Proof.
  apply (isNoise_exec_notice "finished" [] (lit "2026-02-04 10:00")
           (lit " (exit 0)")).
  - cbn. tauto.
  - constructor.
  - repeat constructor.
Defined.

(** ** Whole transcripts *)

Section TranscriptMore.

Context `{CaseTables}.

Lemma collect_acc (lines : list rawLine) (acc : list jsstring) :
  collect lines acc
  = match collect lines [] with
    | Returns t => Returns (acc ++ t)
    | Throws e => Throws e
    end.
Proof.
  revert acc. induction lines as [|line rest IH]; intros acc; cbn [collect].
  - now rewrite app_nil_r.
  - destruct (processLine line) as [[l|]|e]; [| |reflexivity].
    + rewrite (IH (acc ++ [l])), (IH ([] ++ [l])).
      destruct (collect rest []); [|reflexivity].
      now rewrite <- app_assoc.
    + apply IH.
Qed.

Lemma collect_app (l1 l2 : list rawLine) (acc : list jsstring) :
  collect (l1 ++ l2) acc
  = match collect l1 acc with
    | Returns t => collect l2 t
    | Throws e => Throws e
    end.
Proof.
  revert acc. induction l1 as [|line rest IH]; intros acc; [reflexivity|].
  cbn [app collect]. destruct (processLine line) as [[l|]|e]; auto.
Qed.

(** X4. The lines of two logs are cleaned independently: the surviving
    lines of a concatenation are the survivors of the first part followed by
    those of the second. *)
Theorem collect_concatenation (l1 l2 : list rawLine) (t1 t2 : list jsstring) :
  collect l1 [] = Returns t1 -> collect l2 [] = Returns t2 ->
  collect (l1 ++ l2) [] = Returns (t1 ++ t2).
Proof.
  intros H1 H2. rewrite collect_app, H1, collect_acc, H2. reflexivity.
Qed.

(** X5. Noise and skipped records leave no trace: put anywhere into a log,
    they change neither the transcript nor whether building it raises. *)
Theorem noise_leaves_no_trace (l1 noise l2 : list rawLine)
    (maxChars : number) :
  forallb isSkipped noise = true ->
  buildCleanTranscript (l1 ++ noise ++ l2) maxChars
  = buildCleanTranscript (l1 ++ l2) maxChars.
Proof.
  intros Hn. unfold buildCleanTranscript.
  rewrite !(collect_app l1). destruct (collect l1 []) as [t|e]; [|reflexivity].
  now rewrite collect_app, (collect_skipped noise t Hn).
Qed.






(** X7. With a budget of at least one character the transcript is at most
    the budget plus the forty characters of the truncation marker long. *)
Theorem transcript_length_bound (lines : list rawLine) (m : Z)
    (transcript : jsstring) :
  (0 < m)%Z ->
  buildCleanTranscript lines (Int m) = Returns transcript ->
  (Z.of_nat (length transcript) <= m + 40)%Z.
Proof.
  intros Hm. unfold buildCleanTranscript.
  destruct (collect lines []) as [t|e]; [|discriminate].
  intros [= <-]. set (joined := join [LF; LF] t).
  destruct (Z.le_gt_cases (Z.of_nat (length joined)) m) as [Hle|Hgt].
  - rewrite truncate_within by exact Hle. lia.
  - rewrite truncate_over by lia. rewrite length_app. unfold lastChars.
    rewrite length_drop. change (length TRUNCATION_MARKER) with 40. lia.
Qed.

End TranscriptMore.

Lemma collect_concatenation_witness :
  @collect plainCase ([says "user" "hi"] ++ [says "assistant" "hello"]) []
  = Returns ([lit "USER: hi"] ++ [lit "ASSISTANT: hello"]).
Proof.
  apply (@collect_concatenation plainCase); vm_compute; reflexivity.
Defined.

Lemma noise_leaves_no_trace_witness :
  @buildCleanTranscript plainCase
    ([says "user" "hi"] ++ [says "user" "/new"; Malformed]
     ++ [says "assistant" "hello"]) (Int 80000)
  = @buildCleanTranscript plainCase
      ([says "user" "hi"] ++ [says "assistant" "hello"]) (Int 80000).
Proof.
  apply (@noise_leaves_no_trace plainCase). vm_compute. reflexivity.
Defined.


Lemma transcript_length_bound_witness :
  (Z.of_nat (length (TRUNCATION_MARKER ++ lit "hi")) <= 2 + 40)%Z.
Proof.
  apply (@transcript_length_bound plainCase [says "user" "hi"] 2);
    [lia|vm_compute; reflexivity].
Defined.

(** ** Line filtering *)

Section LineFacts.

Lemma join_head (sep : jsstring) (c : N) (w : jsstring) (ws : list jsstring) :
  join sep ((c :: w) :: ws) = c :: join sep (w :: ws).
Proof. now destruct ws. Qed.

Lemma join_split (sep : N) (s : jsstring) : join [sep] (split sep s) = s.
Proof.
  induction s as [|c r IH]; [reflexivity|]. cbn [split].
  pose proof (split_nonempty sep r) as Hne.
  destruct (c =? sep)%N eqn:Hc.
  - apply N.eqb_eq in Hc. subst.
    destruct (split sep r) as [|w ws]; [congruence|].
    change (join [sep] ([] :: w :: ws)) with (sep :: join [sep] (w :: ws)).
    now rewrite IH.
  - destruct (split sep r) as [|w ws]; [congruence|].
    now rewrite join_head, IH.
Qed.

Lemma filter_all {A} (f : A -> bool) (l : list A) :
  forallb f l = true -> List.filter f l = l.
Proof.
  induction l as [|x l IH]; [reflexivity|]. cbn.
  intros Hx. apply andb_prop in Hx as [-> Hl]. now rewrite IH.
Qed.

Lemma filter_none {A} (f : A -> bool) (l : list A) :
  forallb (fun x => negb (f x)) l = true -> List.filter f l = [].
Proof.
  induction l as [|x l IH]; [reflexivity|]. cbn.
  intros Hx. apply andb_prop in Hx as [Hx Hl].
  apply negb_true_iff in Hx. rewrite Hx. now apply IH.
Qed.

(** X8. The line filter touches tool and system lines only: a text without
    such lines is passed on as it is, trimmed; a text made of such lines
    alone is cleaned away entirely. *)
Theorem cleanText_lines (text : jsstring) :
  (forallb keepLine (split LF text) = true -> cleanText text = trim text) /\
  (forallb (fun l => negb (keepLine l)) (split LF text) = true ->
   cleanText text = []).
Proof.
  unfold cleanText. split; intros Hl.
  - now rewrite filter_all, join_split.
  - now rewrite filter_none.
Qed.

(** X22. The line filter looks at the start of the trimmed line only: a
    line that begins, after any indentation, with the tool marker and
    [ Exec:] or [ Read:], or with [System: [], is dropped whatever
    follows. *)
Theorem keepLine_drops_marked_lines (indent p rest : jsstring) :
  allWhiteSpace indent -> In p droppedPrefixes ->
  keepLine (indent ++ p ++ rest) = false.
Proof.
  intros Hi Hp.
  assert (Htrim : exists x, trim (indent ++ p ++ rest) = p ++ x).
  { replace (indent ++ p ++ rest) with (indent ++ (p ++ rest) ++ [])
      by now rewrite app_nil_r.
    rewrite trim_outer by (exact Hi || constructor).
    exists (trimEnd rest).
    cbn [In droppedPrefixes] in Hp. destruct Hp as [<-|[<-|[<-|[]]]].
    - exact (trim_keeps 0xD83D 58 ([0xDEE0; 0xFE0F]%N ++ lit " Exec") rest
               eq_refl eq_refl).
    - exact (trim_keeps 0xD83D 58 ([0xDEE0; 0xFE0F]%N ++ lit " Read") rest
               eq_refl eq_refl).
    - exact (trim_keeps 83 91 (lit "ystem: ") rest eq_refl eq_refl). }
  destruct Htrim as [x Htrim]. unfold keepLine. rewrite Htrim.
  cbn [In droppedPrefixes] in Hp. destruct Hp as [<-|[<-|[<-|[]]]].
  - now rewrite startsWith_app.
  - destruct (startsWith _ (TOOL_MARK ++ lit " Exec:")); [reflexivity|].
    now rewrite startsWith_app.
  - destruct (startsWith _ (TOOL_MARK ++ lit " Exec:")); [reflexivity|].
    destruct (startsWith _ (TOOL_MARK ++ lit " Read:")); [reflexivity|].
    now rewrite startsWith_app.
Qed.

End LineFacts.

Lemma keepLine_drops_marked_lines_witness :
  keepLine (lit "  " ++ (TOOL_MARK ++ lit " Exec:") ++ lit " ls -la") = false.
Proof.
  apply (keepLine_drops_marked_lines (lit "  ") (TOOL_MARK ++ lit " Exec:")
           (lit " ls -la")).
  - repeat constructor.
  - cbn. tauto.
Defined.

Lemma cleanText_lines_witness :
  cleanText (lit " done" ++ [LF] ++ lit "see notes ")
  = trim (lit " done" ++ [LF] ++ lit "see notes ").
Proof.
  apply (cleanText_lines (lit " done" ++ [LF] ++ lit "see notes ")).
  vm_compute. reflexivity.
Defined.

(** ** Provider and model *)

Section ProviderFacts.

Lemma indexOf_spec (c : N) (s : jsstring) :
  (indexOf c s = (-1)%Z /\ ~ In c s) \/
  (exists a b, s = a ++ c :: b /\ ~ In c a /\
               indexOf c s = Z.of_nat (length a)).
Proof.
  induction s as [|x r IH]; [left; split; [reflexivity|intros []]|].
  cbn [indexOf]. destruct (x =? c)%N eqn:Hx.
  - apply N.eqb_eq in Hx. subst. right. exists [], r.
    split; [reflexivity|]. split; [intros []|reflexivity].
  - apply N.eqb_neq in Hx. destruct IH as [[-> Hn]|(a & b & -> & Hn & ->)].
    + left. split; [reflexivity|]. intros [Heq|Hin]; [congruence|tauto].
    + right. exists (x :: a), b. split; [reflexivity|]. split.
      * intros [Heq|Hin]; [congruence|tauto].
      * destruct (Z.ltb_spec (Z.of_nat (length a)) 0); [exfalso; lia|].
        cbn [length]. lia.
Qed.

Lemma sliceFrom_drop (s : jsstring) (n : nat) :
  n <= length s -> sliceFrom s (Z.of_nat n) = drop n s.
Proof.
  intros Hn. unfold sliceFrom, slice.
  destruct (Z.ltb_spec (Z.of_nat n) 0); [exfalso; lia|].
  destruct (Z.ltb_spec (Z.of_nat (length s)) 0); [exfalso; lia|].
  rewrite Z.min_id, Z.min_l by lia. rewrite Nat2Z.id.
  apply take_ge. rewrite length_drop. lia.
Qed.

(** X9. Splitting a model identifier loses nothing: with a slash in it, the
    provider (which has no slash), a slash and the model give the identifier
    back; without one there is no provider and the model is the whole
    identifier. *)
Theorem splitProviderModel_round_trip (modelStr : jsstring) :
  match splitProviderModel modelStr with
  | (Some provider, model) =>
      modelStr = provider ++ [47%N] ++ model /\ ~ In 47%N provider
  | (None, model) => model = modelStr /\ ~ In 47%N modelStr
  end.
Proof.
  unfold splitProviderModel.
  destruct (indexOf_spec 47 modelStr) as [[-> Hn]|(a & b & -> & Hn & ->)].
  - cbn. now split.
  - destruct (Z.ltb_spec (Z.of_nat (length a)) 0); [exfalso; lia|].
    rewrite slice_prefix, take_app_length.
    replace (Z.of_nat (length a) + 1)%Z with (Z.of_nat (S (length a))) by lia.
    rewrite sliceFrom_drop by (rewrite length_app; cbn; lia).
    rewrite drop_app_ge by lia.
    replace (S (length a) - length a) with 1 by lia. now split.
Qed.

End ProviderFacts.

(** ** More on model calls *)

Section CallMore.

Variable host : nat -> attempt.
Variable a : callArgs.

Lemma iteration_requests (m : jsstring) (w : world) :
  length (requests (snd (iteration host a m w))) <= S (length (requests w)).
Proof.
  unfold iteration, bind, nextAttempt, tryCatch, tryBlock, catchBlock.
  destruct (splitProviderModel m) as [provider model].
  destruct (host (attempts w)) as [[e1|] [e2|] [[|[t|]]|e3] rm]; cbn;
    rewrite ?length_app; cbn; try lia.
  destruct (truthy (trim t)); cbn; rewrite ?length_app; cbn; lia.
Qed.

Lemma tryModels_counts (ms : list jsstring) (w : world) :
  attempts w <= attempts (snd (tryModels host a ms w)) /\
  length (requests (snd (tryModels host a ms w))) + attempts w
  <= length (requests w) + attempts (snd (tryModels host a ms w)).
Proof.
  revert w. induction ms as [|p ms IH]; intros w; [cbn; lia|].
  rewrite tryModels_step.
  pose proof (iteration_requests p w) as Hreq.
  destruct (iteration_result host a p w) as (w1 & Hrun & Hatt & _).
  rewrite Hrun in *. cbn [snd] in Hreq.
  destruct (yields (host (attempts w))); cbn [snd]; [split; lia|].
  destruct (IH w1) as [H1 H2]. split; lia.
Qed.

Lemma tryModels_stops (pre : list jsstring) (m : jsstring)
    (post : list jsstring) (t : jsstring) (w : world) :
  (forall i, i < length pre -> yields (host (attempts w + i)) = None) ->
  yields (host (attempts w + length pre)) = Some t ->
  attempts (snd (tryModels host a (pre ++ m :: post) w))
  = attempts w + S (length pre).
Proof.
  revert w. induction pre as [|p pre IH]; intros w Hfail Hok.
  - cbn [app length] in *. rewrite Nat.add_0_r in Hok.
    rewrite tryModels_step.
    destruct (iteration_result host a m w) as (w' & -> & Hatt & _).
    rewrite Hok. cbn [snd]. lia.
  - cbn [app]. rewrite tryModels_step.
    destruct (iteration_result host a p w) as (w1 & -> & Hatt & _).
    assert (Hp : yields (host (attempts w)) = None).
    { specialize (Hfail 0). rewrite Nat.add_0_r in Hfail. apply Hfail. cbn. lia. }
    rewrite Hp, IH.
    + rewrite Hatt. cbn [length]. lia.
    + intros i Hi. rewrite Hatt.
      replace (S (attempts w) + i) with (attempts w + S i) by lia.
      apply Hfail. cbn. lia.
    + rewrite Hatt.
      replace (S (attempts w) + length pre) with (attempts w + length (p :: pre))
        by (cbn; lia).
      exact Hok.
Qed.

(** X10. [llmCall] stops at the first candidate that answers: exactly the
    candidates up to it are tried, none after it, and at most one request
    goes out per candidate tried. *)
Theorem llmCall_stops_at_first_answer (pre : list jsstring) (m : jsstring)
    (post : list jsstring) (t : jsstring) (w : world) :
  candidates a = pre ++ m :: post ->
  (forall i, i < length pre -> yields (host (attempts w + i)) = None) ->
  yields (host (attempts w + length pre)) = Some t ->
  attempts (snd (llmCall host a w)) = attempts w + S (length pre) /\
  length (requests (snd (llmCall host a w)))
  <= length (requests w) + S (length pre).
Proof.
  intros Hc Hfail Hok. unfold llmCall. fold (candidates a). rewrite Hc.
  pose proof (tryModels_stops pre m post t w Hfail Hok) as Hatt.
  destruct (tryModels_counts (pre ++ m :: post) w) as [_ Hreq].
  split; [exact Hatt|]. rewrite Hatt in Hreq. lia.
Qed.

Lemma iteration_cleans (m : jsstring) (w : world) :
  gentle (host (attempts w)) -> freshTemps w ->
  tempDirs (snd (iteration host a m w)) = tempDirs w /\
  freshTemps (snd (iteration host a m w)).
Proof.
  unfold gentle, freshTemps. intros [[r Hr] Hrm] Hfresh.
  assert (Hfilter : List.filter (fun x => negb (x =? nextTemp w))
                      (tempDirs w ++ [nextTemp w]) = tempDirs w).
  { rewrite List.filter_app. cbn. rewrite Nat.eqb_refl. cbn.
    rewrite app_nil_r. apply filter_all. apply forallb_forall.
    intros x Hx. rewrite Forall_forall in Hfresh.
    apply list_elem_of_In, Hfresh in Hx.
    apply negb_true_iff, Nat.eqb_neq. lia. }
  assert (Hmono : Forall (fun d => d < S (nextTemp w)) (tempDirs w))
    by (eapply Forall_impl; [exact Hfresh|]; cbn; lia).
  unfold iteration, bind, nextAttempt, tryCatch, tryBlock, catchBlock.
  destruct (splitProviderModel m) as [provider model].
  destruct (host (attempts w)) as [[e1|] [e2|] ag rm]; cbn in *; subst;
    try (split; [reflexivity|exact Hfresh]).
  destruct r as [|[t|]]; cbn; rewrite ?Hfilter;
    try (split; [reflexivity|exact Hmono]).
  destruct (truthy (trim t)); cbn; rewrite ?Hfilter;
    (split; [reflexivity|exact Hmono]).
Qed.

Lemma tryModels_cleans (ms : list jsstring) (w : world) :
  (forall k, gentle (host k)) -> freshTemps w ->
  tempDirs (snd (tryModels host a ms w)) = tempDirs w.
Proof.
  intros Hg. revert w. induction ms as [|p ms IH]; intros w Hfresh;
    [reflexivity|].
  rewrite tryModels_step.
  destruct (iteration_cleans p w (Hg _) Hfresh) as [Htemp Hfresh'].
  destruct (iteration_result host a p w) as (w1 & Hrun & _ & _).
  rewrite Hrun in *. cbn [snd] in *.
  destruct (yields (host (attempts w))); cbn [snd]; [exact Htemp|].
  now rewrite IH.
Qed.

(** X11. As long as the generation call comes back (with text, without, or
    with nothing at all) and the removal works, [llmCall] leaves no scratch
    directory behind, however many candidates it tries. *)
Theorem llmCall_leaves_no_scratch_dir (w : world) :
  (forall k, gentle (host k)) -> freshTemps w ->
  tempDirs (snd (llmCall host a w)) = tempDirs w.
Proof. intros Hg Hfresh. now apply tryModels_cleans. Qed.

End CallMore.

Lemma llmCall_stops_at_first_answer_witness :
  attempts (snd (llmCall hostABC callABC world0)) = 0 + 3.
Proof.
  apply (llmCall_stops_at_first_answer hostABC callABC
           [lit "A"; lit "B"] (lit "C") [] (lit "done") world0).
  - reflexivity.
  - intros [|[|i]] Hi; [reflexivity|reflexivity|cbn in Hi; lia].
  - reflexivity.
Defined.

Lemma llmCall_leaves_no_scratch_dir_witness :
  tempDirs (snd (llmCall (fun _ => answers "") callABC world0)) = [].
Proof.
  apply (llmCall_leaves_no_scratch_dir (fun _ => answers "") callABC world0).
  - intros k. split; [eexists; reflexivity|reflexivity].
  - constructor.
Defined.

(** ** More on slugs *)

Section SlugMore.

Context `{CaseTables}.

Lemma stripFences_none (s : jsstring) :
  Forall (fun c => c <> 96%N) s -> stripFences s = s.
Proof.
  induction 1 as [|c r Hc _ IH]; [reflexivity|].
  cbn [stripFences]. apply N.eqb_neq in Hc.
  destruct c as [|p]; [now rewrite IH|].
  repeat (destruct p as [p|p|]; try now rewrite IH); now cbn in Hc.
Qed.

Lemma trim_none (s : jsstring) :
  Forall (fun c => isWhiteSpace c = false) s -> trim s = s.
Proof.
  intros Hs. assert (Hstop : forall l, Forall (fun c => isWhiteSpace c = false) l ->
                                       dropWhile isWhiteSpace l = l).
  { intros l Hl. destruct Hl as [|c r Hc _]; [reflexivity|]. cbn. now rewrite Hc. }
  unfold trim, trimStart, trimEnd. rewrite (Hstop s Hs).
  rewrite Hstop by now apply Forall_rev. apply rev_involutive.
Qed.

Lemma collapse_separated_id (s : jsstring) :
  separated s -> collapseHyphens s = s.
Proof.
  induction s as [|c r IH]; [reflexivity|]. intros Hs.
  rewrite collapse_cons.
  destruct ((c =? HYPHEN)%N && startsWith r [HYPHEN]) eqn:Hc.
  - apply andb_prop in Hc as [Hc Hr]. apply N.eqb_eq in Hc.
    apply startsWith_hyphen in Hr as [r' ->]. subst.
    now destruct (Hs [] r').
  - f_equal. apply IH. eapply separated_tail, Hs.
Qed.

Lemma dropLeading_id (s : jsstring) :
  startsWith s [HYPHEN] = false -> dropLeadingHyphen s = s.
Proof.
  destruct s as [|c r]; [reflexivity|].
  rewrite startsWith_cons, startsWith_nil, andb_true_r. cbn. now intros ->.
Qed.

Lemma slugChar_facts (c : N) :
  isSlugChar c = true ->
  c <> 96%N /\ isWhiteSpace c = false /\ isAsciiUpper c = false /\
  isCaseless c = true.
Proof.
  intros Hc. unfold isSlugChar, isAsciiLower, isDigit, HYPHEN in Hc.
  assert (Hr : (97 <= c <= 122 \/ 48 <= c <= 57 \/ c = 45)%N)
    by (bool_arith; lia).
  split; [lia|]. split; [|split].
  - destruct (isWhiteSpace c) eqn:Hw; [|reflexivity].
    unfold isWhiteSpace in Hw. bool_arith; exfalso; lia.
  - destruct (isAsciiUpper c) eqn:Hu; [|reflexivity].
    unfold isAsciiUpper in Hu. bool_arith; exfalso; lia.
  - unfold isCaseless. apply orb_true_intro. left. apply N.ltb_lt. lia.
Qed.

Lemma tidy_cleanSlug (s : jsstring) : tidy s -> cleanSlug s = s.
Proof.
  intros (Hchars & Hsep & Hhead & Hlast & Hlen).
  unfold cleanSlug. change 40%Z with (Z.of_nat 40). rewrite slice_prefix.
  rewrite stripFences_none
    by (eapply Forall_impl; [exact Hchars|]; intros c Hc;
        now apply slugChar_facts in Hc).
  rewrite trim_none
    by (eapply Forall_impl; [exact Hchars|]; intros c Hc;
        now apply slugChar_facts in Hc).
  assert (Hlow : toLowerCase s = s).
  { unfold toLowerCase. clear -Hchars.
    induction Hchars as [|c r Hc _ IH]; [reflexivity|].
    cbn [flat_map]. apply slugChar_facts in Hc as (_ & _ & -> & ->).
    cbn [app]. now rewrite IH. }
  assert (Hhyph : hyphenate s = s).
  { unfold hyphenate. clear -Hchars.
    induction Hchars as [|c r Hc _ IH]; [reflexivity|].
    cbn [map]. now rewrite Hc, IH. }
  rewrite Hlow, Hhyph, collapse_separated_id by exact Hsep.
  unfold trimHyphenEnds, dropTrailingHyphen.
  rewrite (dropLeading_id s Hhead), (dropLeading_id (rev s) Hlast).
  rewrite rev_involutive. apply take_ge. lia.
Qed.

Lemma tidy_finalSlug (s : jsstring) (now : Z) :
  tidy s -> 3 <= length s -> finalSlug (Some s) now = Returns s.
Proof.
  intros Ht H3. unfold finalSlug.
  destruct s as [|c r]; [cbn in H3; lia|]. cbn [truthy].
  rewrite (tidy_cleanSlug _ Ht).
  cbn [truthy negb orb]. apply Nat.ltb_ge in H3. now rewrite H3.
Qed.

(** X12. A model answer that already is a slug as asked for - letters,
    digits and single hyphens, none at an end, at most forty characters -
    comes out of the clean-up unchanged, and is the final slug when it has at
    least three characters. *)
Theorem tidy_slug_is_kept (s : jsstring) (now : Z) :
  tidy s ->
  cleanSlug s = s /\ (3 <= length s -> finalSlug (Some s) now = Returns s).
Proof.
  intros Ht. split; [now apply tidy_cleanSlug|].
  intros H3. now apply tidy_finalSlug.
Qed.

Lemma separated_prefix (s t : jsstring) : separated (s ++ t) -> separated s.
Proof. intros Hs a b ->. apply (Hs a (b ++ t)). now rewrite <- app_assoc. Qed.

Lemma separated_take (n : nat) (s : jsstring) :
  separated s -> separated (take n s).
Proof.
  intros Hs. apply (separated_prefix _ (drop n s)). now rewrite take_drop.
Qed.

Lemma cleanSlug_separated (s : jsstring) : separated (cleanSlug s).
Proof.
  unfold cleanSlug. change 40%Z with (Z.of_nat 40). rewrite slice_prefix.
  apply separated_take. unfold trimHyphenEnds, dropTrailingHyphen.
  apply separated_rev, dropLeading_separated, separated_rev,
    dropLeading_separated, collapse_separated.
Qed.

(** X13. The slug that goes into the file name never begins with a hyphen
    and never has two hyphens in a row. *)
Theorem final_slug_hyphens (slug : option jsstring) (now : Z) (s : jsstring) :
  finalSlug slug now = Returns s ->
  startsWith s [HYPHEN] = false /\ separated s.
Proof.
  intros Hs. split; [exact (finalSlug_head slug now s Hs)|].
  assert (Hfb : fallbackSlug now = Returns s -> separated s).
  { rewrite fallbackSlug_value. intros [= <-] x y Heq.
    assert (Hdig : Forall (fun c => isDigit c = true)
                     (x ++ HYPHEN :: HYPHEN :: y))
      by (rewrite <- Heq; apply fallback_shape).
    apply Forall_app in Hdig as [_ Hdig]. inversion Hdig as [|? ? Hh _].
    discriminate Hh. }
  destruct slug as [x|]; [|exact (Hfb Hs)].
  unfold finalSlug in Hs. destruct (truthy x) eqn:Hx.
  - destruct (_ || _); [exact (Hfb Hs)|]. injection Hs as <-.
    apply cleanSlug_separated.
  - rewrite Hx in Hs. exact (Hfb Hs).
Qed.

End SlugMore.

Lemma tidy_slug_is_kept_witness :
  @finalSlug plainCase (Some (lit "reflector-hook-setup")) 0
  = Returns (lit "reflector-hook-setup").
Proof.
  refine (proj2 (@tidy_slug_is_kept plainCase (lit "reflector-hook-setup") 0 _) _).
  - split; [|split; [|split; [|split]]].
    + apply Forall_forall. intros c Hc. apply list_elem_of_In in Hc.
      vm_compute in Hc. repeat (destruct Hc as [<-|Hc]; [reflexivity|]).
      destruct Hc.
    + apply (collapse_separated (lit "reflector-hook-setup")).
    + reflexivity.
    + reflexivity.
    + vm_compute. lia.
  - vm_compute. lia.
Defined.

Lemma final_slug_hyphens_witness :
  startsWith (lit "a-b") [HYPHEN] = false /\ separated (lit "a-b").
Proof.
  apply (@final_slug_hyphens plainCase (Some (lit "--A  b--")) 0).
  vm_compute. reflexivity.
Defined.

(** ** More on saving *)

Section SaveMore.

Variables date session slug : jsstring.


End SaveMore.

(** ** Settings *)

Section SettingsFacts.





End SettingsFacts.

(** ** The detached run *)

Section RunFacts.

Context `{CaseTables}.

Variable host : nat -> attempt.
Variable sh : saveHost.

Lemma tryModels_all_fail_attempts (a : callArgs) (ms : list jsstring)
    (w : world) :
  (forall i, i < length ms -> yields (host (attempts w + i)) = None) ->
  attempts (snd (tryModels host a ms w)) = attempts w + length ms.
Proof.
  revert w. induction ms as [|p ms IH]; intros w Hfail; [cbn; lia|].
  rewrite tryModels_step.
  destruct (iteration_result host a p w) as (w1 & -> & Hatt & _).
  assert (Hp : yields (host (attempts w)) = None).
  { specialize (Hfail 0). rewrite Nat.add_0_r in Hfail. apply Hfail. cbn. lia. }
  rewrite Hp, IH.
  - rewrite Hatt. cbn [length]. lia.
  - intros i Hi. rewrite Hatt.
    replace (S (attempts w) + i) with (attempts w + S i) by lia.
    apply Hfail. cbn. lia.
Qed.

Lemma yields_trimmed (h : attempt) (t : jsstring) :
  yields h = Some t -> t <> [] /\ trim t = t.
Proof.
  unfold yields. destruct (resolveDirs h); [discriminate|].
  destruct (mkdtemp h); [discriminate|].
  destruct (runEmbeddedPiAgent h) as [[|[raw|]]|]; try discriminate.
  destruct (truthy (trim raw)) eqn:Ht; [|discriminate].
  intros [= <-]. split; [now destruct (trim raw)|apply trim_idempotent].
Qed.

Lemma usable_yield (h : attempt) (t : jsstring) :
  yields h = Some t -> usable (Some t) = Some t.
Proof.
  intros Hy. apply yields_trimmed in Hy as [Hne _].
  now destruct t.
Qed.

(** X20. A text that [llmCall] returns is never empty and has no white
    space at its ends. *)
Theorem llmCall_text_is_trimmed (a : callArgs) (w w' : world) (t : jsstring) :
  llmCall host a w = (Returns (Some t), w') -> t <> [] /\ trim t = t.
Proof.
  unfold llmCall. generalize (modelStr a :: fallbackModels a). intros ms.
  revert w. induction ms as [|p ms IH]; intros w; [discriminate|].
  rewrite tryModels_step.
  destruct (iteration_result host a p w) as (w1 & -> & _ & _).
  destruct (yields (host (attempts w))) as [x|] eqn:Hy; [|apply IH].
  intros [= <- _]. now apply yields_trimmed in Hy.
Qed.

(** X16. When no candidate gives a summary the run stops there: the
    failure is reported, the slug call is never made, and nothing is
    written. *)
Theorem no_summary_no_file (st : settings) (file transcript : jsstring)
    (fuel : nat) (s : state) :
  (forall i, i < length (candidates (summaryCall st transcript)) ->
             yields (host (attempts (llm s) + i)) = None) ->
  exists s',
    summarize host sh st file transcript fuel s = Some s' /\
    memory s' = memory s /\
    report s' = report s ++ [ErrorAllModelsFailed] /\
    attempts (llm s')
    = attempts (llm s) + length (candidates (summaryCall st transcript)).
Proof.
  intros Hfail. unfold summarize, llmCall.
  fold (candidates (summaryCall st transcript)).
  pose proof (tryModels_all_fail_attempts (summaryCall st transcript) _ _ Hfail)
    as Hatt.
  destruct (tryModels_all_fail host (summaryCall st transcript) _ _ Hfail)
    as (w1 & warnings & Hrun & _).
  rewrite Hrun in *. cbn [snd] in Hatt. cbn [usable].
  eexists. split; [reflexivity|]. cbn. auto.
Qed.



Lemma isoDate_part (t : Z) :
  at_ (split 84%N (toISOString t)) 0 = Returns (isoDate t).
Proof.
  assert (Hshape : exists rest, Forall (fun c => c <> 84%N) (isoDate t) /\
                                toISOString t = isoDate t ++ 84%N :: rest).
  { unfold toISOString, isoDate.
    destruct (civilFromDays (t / msPerDay)) as [[y m] d].
    eexists. split.
    - unfold yearString, pad6, pad4, pad3, pad2.
      destruct ((0 <=? y)%Z && (y <=? 9999)%Z); [|destruct (y <? 0)%Z]; cbn;
        repeat (constructor; [first [apply digit_neq; lia | discriminate]|]);
        constructor.
    - rewrite <- !app_assoc. reflexivity. }
  destruct Hshape as (rest & Hdate & ->).
  now rewrite split_at_first by exact Hdate.
Qed.


(** X21. When the summary call and the slug call are both answered at once,
    the answer is a slug as asked for with at least three characters, the
    file system does its part and the plain name is free, the summary is
    saved as [<date>-reflector-<slug>.md] with the slug exactly as the model
    gave it. *)
Theorem summary_saved_under_model_slug (st : settings)
    (file transcript summary slug : jsstring) (s : state) :
  yields (host (attempts (llm s))) = Some summary ->
  yields (host (S (attempts (llm s)))) = Some slug ->
  tidy slug -> 3 <= length slug ->
  workspaceDir sh = None -> mkdir sh = None -> writeFile sh = None ->
  let date := isoDate (nowDate sh) in
  memory s !! baseName date slug = None ->
  exists s',
    summarize host sh st file transcript (enough (memory s)) s = Some s' /\
    memory s'
    = <[baseName date slug := document date (basename file) slug summary]>
        (memory s) /\
    report s' = report s ++ [LogSaved (baseName date slug)].
Proof.
  intros Hsum Hslug Htidy H3 Hws Hmk Hwr date Hfree. unfold summarize, llmCall.
  destruct (tryModels_first_success host (summaryCall st transcript) []
              (modelStr (summaryCall st transcript))
              (fallbackModels (summaryCall st transcript)) summary (llm s))
    as (w1 & warnings & Hrun1 & _).
  { intros i Hi. cbn in Hi. lia. }
  { cbn [length]. now rewrite Nat.add_0_r. }
  pose proof (tryModels_stops host (summaryCall st transcript) []
                (modelStr (summaryCall st transcript))
                (fallbackModels (summaryCall st transcript)) summary (llm s))
    as Hatt.
  cbn [app length] in Hrun1, Hatt. rewrite Hrun1 in *. cbn [snd] in Hatt.
  rewrite Nat.add_0_r in Hatt.
  specialize (Hatt ltac:(intros i Hi; lia) Hsum).
  rewrite (usable_yield _ _ Hsum).
  destruct (tryModels_first_success host (slugCall st summary) []
              (modelStr (slugCall st summary))
              (fallbackModels (slugCall st summary)) slug w1)
    as (w2 & warnings2 & Hrun2 & _).
  { intros i Hi. cbn in Hi. lia. }
  { cbn [length]. rewrite Hatt, Nat.add_0_r.
    now replace (attempts (llm s) + 1) with (S (attempts (llm s))) by lia. }
  cbn [app] in Hrun2. rewrite Hrun2.
  rewrite (tidy_finalSlug slug (nowSlug sh) Htidy H3), Hws, Hmk.
  rewrite isoDate_part. fold date.
  rewrite finalPath_base by exact Hfree. rewrite Hwr.
  eexists. split; [reflexivity|]. split; reflexivity.
Qed.

Lemma truncate_empty_short (maxChars : number) :
  length (truncate [] maxChars) < 50.
Proof.
  unfold truncate. destruct (gtNumber _ maxChars); [|cbn; lia].
  destruct maxChars as [m|]; [|cbn; lia].
  replace (sliceFrom [] (- m)) with (@nil N)
    by (unfold sliceFrom, slice; now rewrite drop_nil, take_nil).
  rewrite app_nil_r. change (length TRUNCATION_MARKER) with 40. lia.
Qed.

(** X19. A session without surviving lines never reaches the models,
    whatever the character budget is (negative and not-a-number included):
    the handler returns with the model-call record and the memory directory
    as they were. *)
Theorem empty_session_is_never_summarized (ev : event) (lines : list rawLine)
    (fuel : nat) (s : state) :
  sessionLines ev = Returns lines -> collect lines [] = Returns [] ->
  exists s',
    handler host sh ev fuel s = Some s' /\
    llm s' = llm s /\ memory s' = memory s.
Proof.
  intros Hlines Hnone. unfold handler.
  destruct (_ || _); [now exists s|].
  destruct (loadInternals ev); [eexists; split; [reflexivity|now cbn]|].
  destruct (config ev) as [env|]; [|eexists; split; [reflexivity|now cbn]].
  destruct (sessionFile ev) as [file|];
    [|eexists; split; [reflexivity|now cbn]].
  destruct (negb (truthy file)); [eexists; split; [reflexivity|now cbn]|].
  cbv zeta. rewrite Hlines. unfold buildCleanTranscript. rewrite Hnone.
  cbn [join].
  pose proof (truncate_empty_short
                (maxTranscriptChars
                   (settingsOf env (parsedMaxChars ev) (parsedTimeoutMs ev))))
    as Hshort.
  apply Nat.ltb_lt in Hshort. rewrite Hshort, orb_true_r.
  eexists; split; [reflexivity|now cbn].
Qed.

End RunFacts.

Lemma llmCall_text_is_trimmed_witness :
  lit "done" <> [] /\ trim (lit "done") = lit "done".
Proof.
  apply (llmCall_text_is_trimmed hostABC callABC world0
           (snd (llmCall hostABC callABC world0))).
  vm_compute. reflexivity.
Defined.

Lemma no_summary_no_file_witness :
  exists s',
    @summarize plainCase (fun _ => timesOut) calmHost
      (settingsOf noEnv (Int 80000) (Int 60000)) (lit "s.jsonl") (lit "t")
      5 state0 = Some s' /\
    memory s' = memory state0 /\
    report s' = report state0 ++ [ErrorAllModelsFailed] /\
    attempts (llm s') = attempts (llm state0) + 1.
Proof.
  apply (@no_summary_no_file plainCase (fun _ => timesOut) calmHost
           (settingsOf noEnv (Int 80000) (Int 60000)) (lit "s.jsonl") (lit "t")
           5 state0).
  intros i _. reflexivity.
Defined.


Lemma summary_saved_under_model_slug_witness :
  exists s',
    @summarize plainCase (fun k => match k with
                                   | 0 => answers "## Summary"
                                   | _ => answers "abc"
                                   end) calmHost
      (settingsOf noEnv (Int 80000) (Int 60000)) (lit "/s/s1.jsonl") (lit "t")
      (enough (memory state0)) state0 = Some s' /\
    memory s'
    = <[baseName (isoDate 45296000) (lit "abc")
        := document (isoDate 45296000) (basename (lit "/s/s1.jsonl"))
             (lit "abc") (lit "## Summary")]> (memory state0) /\
    report s'
    = report state0 ++ [LogSaved (baseName (isoDate 45296000) (lit "abc"))].
Proof.
  apply (@summary_saved_under_model_slug plainCase _ calmHost
           (settingsOf noEnv (Int 80000) (Int 60000)) (lit "/s/s1.jsonl")
           (lit "t") (lit "## Summary") (lit "abc") state0);
    try reflexivity.
  split; [|split; [|split; [|split]]].
  - repeat constructor.
  - apply (collapse_separated (lit "abc")).
  - reflexivity.
  - reflexivity.
  - vm_compute. lia.
Defined.

Lemma empty_session_is_never_summarized_witness :
  exists s',
    @handler plainCase hostSummaryOnly calmHost
      (newSession [says "user" "/new"; says "assistant" "HEARTBEAT_OK"]
                  (Int (-1))) 5 state0 = Some s' /\
    llm s' = llm state0 /\ memory s' = memory state0.
Proof.
  apply (@empty_session_is_never_summarized plainCase hostSummaryOnly calmHost
           (newSession [says "user" "/new"; says "assistant" "HEARTBEAT_OK"]
                       (Int (-1)))
           [says "user" "/new"; says "assistant" "HEARTBEAT_OK"] 5 state0).
  - reflexivity.
  - vm_compute. reflexivity.
Defined.
